(** * shop_manager: a shallow embedding of the order manager and its properties

    The development follows the layout of the Python package:
    - [SortingUtils]  shop_manager/sorting_utils.py  (merge_sort, _merge)
    - [Models]        shop_manager/models.py         (Customer, Product, OrderItem, Order)
    - [Db]            shop_manager/db.py             (the SQLite store, import / export)
    - [Analysis]      shop_manager/analysis.py       (ranking and relationship graph)

    Conventions.
    - Python [float] values are modelled by rationals [Q]: every finite float
      is a rational, and the inputs used in the concrete examples below are
      dyadic, so that the float operations involved are exact on them.
    - Python [str] is modelled by [string] (code points below 128 where a
      character class matters); identifiers (SQLite INTEGER) by [Z].
    - A call that can raise returns a [result]; the exception classes met in
      the code are the constructors of [exn], their messages are given in
      English.
    - A database call runs on a [connection]: the tables as the connection
      reads them, uncommitted writes included, and the tables as last
      committed. An exception leaves the connection as the call left it.
    - The JSON file of an export is taken as the document it encodes, and
      the ISO text of a time stamp as the second it names. *)

From Stdlib Require Import ZArith QArith Qround String Ascii List Permutation Sorted Lia.
From stdpp Require Import gmap strings list.
From Equations Require Import Equations.

Local Open Scope Z_scope.

(* ===================================================================== *)
(** ** sorting_utils.py *)
(* ===================================================================== *)

Module SortingUtils.
Section MergeSort.
(** [T] is the element type, [K] the type of keys; [le a b] stands for the
    Python comparison [a <= b] on keys, and [a >= b] for [le b a]. *)
Context {T K : Type}.
Variable le : K -> K -> bool.
Variable key : T -> K.
Variable reverse : bool.

(** The local function [leq] of [_merge]. *)
Definition leq (a b : K) : bool :=
  if negb reverse then le a b else le b a.

(** [_merge]: the loop runs while both fronts are present; the two
    [extend] calls append what is left of either side. *)
Fixpoint _merge (left : list T) : list T -> list T :=
  fix merge_right (right : list T) : list T :=
    match left, right with
    | [], _ => right
    | _, [] => left
    | x :: left', y :: right' =>
        if leq (key x) (key y)
        then x :: _merge left' right
        else y :: merge_right right'
    end.

Equations? merge_sort (data : list T) : list T by wf (length data) lt :=
  merge_sort data with le_lt_dec (length data) 1 => {
    | left _ => data
    | right _ =>
        _merge (merge_sort (take (length data / 2)%nat data))
               (merge_sort (drop (length data / 2)%nat data)) }.
Proof.
  all: rewrite ?length_take, ?length_drop;
    change (fst (Nat.divmod (length data) 1 0 1)) with (length data / 2)%nat;
    pose proof (Nat.div_lt (length data) 2);
    pose proof (Nat.div_str_pos (length data) 2); lia.
Qed.

(** *** Correctness of [_merge] and [merge_sort] *)

(** The order in which the output is arranged: [<=] on keys, or [>=]
    when [reverse] is set. *)
Definition in_order (x y : T) : Prop :=
  if reverse then le (key y) (key x) = true else le (key x) (key y) = true.

(** Two keys are equal for the comparison when each is [<=] the other. *)
Definition same_key (k : K) (x : T) : bool := le (key x) k && le k (key x).

Hypothesis le_total : forall a b, le a b = true \/ le b a = true.
Hypothesis le_trans : forall a b c, le a b = true -> le b c = true -> le a c = true.

Lemma leq_in_order x y : leq (key x) (key y) = true <-> in_order x y.
Proof. unfold leq, in_order. destruct reverse; simpl; tauto. Qed.

Lemma in_order_total x y : in_order x y \/ in_order y x.
Proof. unfold in_order. destruct reverse; apply le_total. Qed.

Lemma in_order_trans x y z : in_order x y -> in_order y z -> in_order x z.
Proof. unfold in_order. destruct reverse; eauto. Qed.

Lemma same_key_in_order k x y :
  same_key k x = true -> same_key k y = true -> in_order x y.
Proof.
  unfold same_key, in_order. rewrite !andb_true_iff.
  intros [? ?] [? ?]. destruct reverse; eauto.
Qed.

Lemma filter_cons_if (f : T -> bool) x l :
  List.filter f (x :: l) = if f x then x :: List.filter f l else List.filter f l.
Proof. reflexivity. Qed.

Lemma _merge_nil_r l : _merge l [] = l.
Proof. destruct l; reflexivity. Qed.

Lemma _merge_cons x l y r :
  _merge (x :: l) (y :: r) =
    if leq (key x) (key y) then x :: _merge l (y :: r) else y :: _merge (x :: l) r.
Proof. reflexivity. Qed.

Lemma _merge_perm l r : Permutation (_merge l r) (l ++ r).
Proof.
  revert r. induction l as [|x l IHl]; intros r.
  - destruct r; reflexivity.
  - induction r as [|y r IHr].
    + rewrite _merge_nil_r, app_nil_r. reflexivity.
    + rewrite _merge_cons. destruct (leq (key x) (key y)).
      * simpl. constructor. apply IHl.
      * rewrite IHr. apply Permutation_middle.
Qed.

Lemma _merge_sorted l r :
  StronglySorted in_order l -> StronglySorted in_order r ->
  StronglySorted in_order (_merge l r).
Proof.
  revert r. induction l as [|x l IHl]; intros r Hl Hr.
  - destruct r; assumption.
  - induction r as [|y r IHr].
    + rewrite _merge_nil_r. assumption.
    + rewrite _merge_cons.
      apply StronglySorted_inv in Hl as Hl'. destruct Hl' as [Hl' Hx].
      apply StronglySorted_inv in Hr as Hr'. destruct Hr' as [Hr' Hy].
      destruct (leq (key x) (key y)) eqn:E.
      * apply leq_in_order in E. constructor; [apply IHl; assumption|].
        rewrite List.Forall_forall in *. intros z Hz.
        apply (Permutation_in _ (_merge_perm l (y :: r))) in Hz.
        apply in_app_or in Hz. destruct Hz as [Hz|[<-|Hz]]; eauto using in_order_trans.
      * assert (Hyx : in_order y x).
        { destruct (in_order_total x y) as [H|H]; [|exact H].
          apply leq_in_order in H. congruence. }
        constructor; [apply IHr; assumption|].
        rewrite List.Forall_forall in *. intros z Hz.
        apply (Permutation_in _ (_merge_perm (x :: l) r)) in Hz.
        apply in_app_or in Hz. destruct Hz as [[<-|Hz]|Hz]; eauto using in_order_trans.
Qed.

(** Stability of one merge: the elements of one key class come out as
    those of [left] followed by those of [right]. *)
Lemma _merge_stable k l r :
  StronglySorted in_order l ->
  List.filter (same_key k) (_merge l r) =
    List.filter (same_key k) l ++ List.filter (same_key k) r.
Proof.
  revert r. induction l as [|x l IHl]; intros r Hl.
  - destruct r; reflexivity.
  - induction r as [|y r IHr].
    + rewrite _merge_nil_r, app_nil_r. reflexivity.
    + rewrite _merge_cons.
      apply StronglySorted_inv in Hl as Hl'. destruct Hl' as [Hl' Hx].
      destruct (leq (key x) (key y)) eqn:E.
      * simpl. rewrite (IHl _ Hl'). simpl. destruct (same_key k x); reflexivity.
      * rewrite (filter_cons_if _ y), IHr, (filter_cons_if _ y r).
        destruct (same_key k y) eqn:Ey; [|reflexivity].
        assert (Hnone : List.filter (same_key k) (x :: l) = []).
        { assert (Hall : forall z, In z (x :: l) -> same_key k z = false).
          { intros z Hz. destruct (same_key k z) eqn:Ez; [|reflexivity].
            exfalso. assert (Hxy : in_order x y).
            { destruct Hz as [<-|Hz].
              - eapply same_key_in_order; eassumption.
              - rewrite List.Forall_forall in Hx.
                eapply in_order_trans; [apply Hx, Hz|].
                eapply same_key_in_order; eassumption. }
            apply leq_in_order in Hxy. congruence. }
          clear -Hall. induction (x :: l) as [|z m IHm]; [reflexivity|].
          simpl. rewrite (Hall z) by (left; reflexivity).
          apply IHm. intros w Hw. apply Hall. right. exact Hw. }
        rewrite Hnone. reflexivity.
Qed.

(** C3. For a total and transitive key comparison, [merge_sort] returns a
    permutation of its input, arranged in non-decreasing key order (in
    non-increasing order when [reverse] is set), and it is stable: for
    every key [k] the elements whose key equals [k] occur in the output in
    the same relative order as in the input, in both directions. *)
Theorem merge_sort_permutation_sorted_stable (data : list T) :
  Permutation (merge_sort data) data /\
  StronglySorted in_order (merge_sort data) /\
  forall k : K,
    List.filter (same_key k) (merge_sort data) = List.filter (same_key k) data.
Proof.
  funelim (merge_sort data).
  - split; [reflexivity|split; [|reflexivity]].
    destruct data as [|x [|y data]]; simpl in *; try lia;
      repeat constructor.
  - match goal with
    | IH1 : Permutation (merge_sort (take _ _)) _ /\ _,
      IH2 : Permutation (merge_sort (drop _ _)) _ /\ _ |- _ =>
        destruct IH1 as (P1 & S1 & F1); destruct IH2 as (P2 & S2 & F2)
    end.
    split; [|split].
    + rewrite _merge_perm, P1, P2, take_drop. reflexivity.
    + apply _merge_sorted; assumption.
    + intros k. rewrite _merge_stable by assumption.
      rewrite F1, F2, <- List.filter_app, take_drop. reflexivity.
Qed.

End MergeSort.

(** A list of (total, order id) rows with repeated totals, as the order
    list of the GUI sorts them. *)
Definition sample_rows : list (Z * Z) := [(3, 1); (1, 2); (3, 3); (2, 4); (1, 5)].

Example merge_sort_sample_asc :
  merge_sort Z.leb fst false sample_rows = [(1, 2); (1, 5); (2, 4); (3, 1); (3, 3)].
Proof. reflexivity. Qed.

Example merge_sort_sample_desc :
  merge_sort Z.leb fst true sample_rows = [(3, 1); (3, 3); (2, 4); (1, 2); (1, 5)].
Proof. reflexivity. Qed.

Lemma merge_sort_permutation_sorted_stable_witness :
  Permutation (merge_sort Z.leb fst true sample_rows) sample_rows /\
  StronglySorted (in_order Z.leb fst true) (merge_sort Z.leb fst true sample_rows) /\
  forall k : Z,
    List.filter (same_key Z.leb fst k) (merge_sort Z.leb fst true sample_rows) =
    List.filter (same_key Z.leb fst k) sample_rows.
Proof.
  apply (merge_sort_permutation_sorted_stable Z.leb fst true).
  - intros a b. rewrite !Z.leb_le. lia.
  - intros a b c. rewrite !Z.leb_le. lia.
Defined.

End SortingUtils.

(* ===================================================================== *)
(** ** models.py *)
(* ===================================================================== *)

Module Models.

(** Exceptions raised by the package or by the SQLite driver underneath. *)
Inductive exn : Type :=
| ValidationError (reason : string)
| IntegrityError (reason : string).

Inductive result (A : Type) : Type :=
| Ok (a : A)
| Raise (e : exn).
Arguments Ok {A} a.
Arguments Raise {A} e.

(** Sequencing of calls that may raise: the first exception propagates. *)
#[export] Instance result_bind : MBind result := fun A B k r =>
  match r with
  | Ok a => k a
  | Raise e => Raise e
  end.

(** *** Regular expressions, matched by derivatives *)

Inductive regex : Type :=
| Void
| Eps
| Class (p : ascii -> bool)
| Cat (r1 r2 : regex)
| Alt (r1 r2 : regex)
| Star (r : regex).

Fixpoint nullable (r : regex) : bool :=
  match r with
  | Void => false
  | Eps => true
  | Class _ => false
  | Cat r1 r2 => nullable r1 && nullable r2
  | Alt r1 r2 => nullable r1 || nullable r2
  | Star _ => true
  end.

Fixpoint deriv (c : ascii) (r : regex) : regex :=
  match r with
  | Void => Void
  | Eps => Void
  | Class p => if p c then Eps else Void
  | Cat r1 r2 =>
      if nullable r1 then Alt (Cat (deriv c r1) r2) (deriv c r2)
      else Cat (deriv c r1) r2
  | Alt r1 r2 => Alt (deriv c r1) (deriv c r2)
  | Star r1 => Cat (deriv c r1) (Star r1)
  end.

Fixpoint fullmatch (r : regex) (s : string) : bool :=
  match s with
  | EmptyString => nullable r
  | String c s' => fullmatch (deriv c r) s'
  end.

(** [r+], [r?] and [r{n,}]. *)
Definition Plus (r : regex) : regex := Cat r (Star r).
Definition Opt (r : regex) : regex := Alt Eps r.
Fixpoint AtLeast (n : nat) (r : regex) : regex :=
  match n with
  | O => Star r
  | S n' => Cat r (AtLeast n' r)
  end.

Definition code (c : ascii) : nat := nat_of_ascii c.
Definition between (lo hi : nat) (c : ascii) : bool :=
  (lo <=? code c)%nat && (code c <=? hi)%nat.
Definition is_char (d c : ascii) : bool := (code c =? code d)%nat.
Definition is_upper : ascii -> bool := between 65 90.
Definition is_lower : ascii -> bool := between 97 122.
Definition is_digit : ascii -> bool := between 48 57.
Definition is_alpha (c : ascii) : bool := is_upper c || is_lower c.
(** Whitespace as [str.strip] and [\s] see it, on code points below 128:
    tab, line feed, vertical tab, form feed, carriage return, the four
    separators 28..31 and the space. *)
Definition is_space (c : ascii) : bool := between 9 13 c || between 28 32 c.

(** [$] of a Python pattern matches at the end of the string and also just
    before a line feed that ends the string. *)
Definition drop_final_newline (s : string) : option string :=
  let fix go (s : string) : option string :=
    match s with
    | EmptyString => None
    | String c EmptyString => if is_char "010" c then Some EmptyString else None
    | String c s' => option_map (String c) (go s')
    end in go s.

Definition match_to_dollar (r : regex) (s : string) : bool :=
  fullmatch r s ||
  match drop_final_newline s with
  | Some s' => fullmatch r s'
  | None => false
  end.

(** [EMAIL_RE = ^[A-Za-z0-9._%+-]+@[A-Za-z0-9.-]+\.[A-Za-z]{2,}$] *)
Definition email_local (c : ascii) : bool :=
  is_alpha c || is_digit c || is_char "." c || is_char "_" c ||
  is_char "%" c || is_char "+" c || is_char "-" c.
Definition email_domain (c : ascii) : bool :=
  is_alpha c || is_digit c || is_char "." c || is_char "-" c.
Definition EMAIL_RE : regex :=
  Cat (Plus (Class email_local))
   (Cat (Class (is_char "@"))
    (Cat (Plus (Class email_domain))
     (Cat (Class (is_char ".")) (AtLeast 2 (Class is_alpha))))).

(** [PHONE_RE = ^\+?[0-9][0-9\s\-\(\)]{7,}$] *)
Definition phone_tail (c : ascii) : bool :=
  is_digit c || is_space c || is_char "-" c || is_char "(" c || is_char ")" c.
Definition PHONE_RE : regex :=
  Cat (Opt (Class (is_char "+")))
   (Cat (Class is_digit) (AtLeast 7 (Class phone_tail))).

(** *** [str.strip] *)

Fixpoint lstrip (s : string) : string :=
  match s with
  | EmptyString => EmptyString
  | String c s' => if is_space c then lstrip s' else s
  end.

Fixpoint rstrip (s : string) : string :=
  match s with
  | EmptyString => EmptyString
  | String c s' =>
      match rstrip s' with
      | EmptyString => if is_space c then EmptyString else String c EmptyString
      | r => String c r
      end
  end.

Definition strip (s : string) : string := rstrip (lstrip s).

(** Truth value of a string: [bool(s)]. *)
Definition truthy (s : string) : bool :=
  match s with EmptyString => false | _ => true end.

(** *** Person and Customer *)

Record Customer : Type := mkCustomer {
  cust_id : option Z;
  _name : string;
  _email : string;
  _phone : string }.

(** The setters: each returns the new value of the field it guards. *)
Definition set_name (value : string) : result string :=
  let value := strip value in
  if negb (truthy value) then Raise (ValidationError "name must not be empty")
  else Ok value.

Definition set_email (value : string) : result string :=
  let value := strip value in
  if truthy value && negb (match_to_dollar EMAIL_RE value)
  then Raise (ValidationError "invalid email")
  else Ok value.

Definition set_phone (value : string) : result string :=
  let value := strip value in
  if truthy value && negb (match_to_dollar PHONE_RE value)
  then Raise (ValidationError "invalid phone number")
  else Ok value.

(** [Person.__post_init__]: the name is validated only when it is truthy. *)
Definition Person_post_init (name : string) : result string :=
  if truthy name then set_name name else Ok name.

(** [Customer(id, _name, _email, _phone)]: the dataclass stores the
    arguments, then [__post_init__] runs the three guarded setters. *)
Definition new_Customer (id : option Z) (name email phone : string) : result Customer :=
  name' ← Person_post_init name;
  email' ← (if truthy email then set_email email else Ok email);
  phone' ← (if truthy phone then set_phone phone else Ok phone);
  Ok (mkCustomer id name' email' phone').

(** [Customer.to_dict] (through [Person] and [BaseEntity]): the entry of a
    customer in the export document. *)
Record customer_json : Type := mkCustomerJson {
  cj_id : option Z;
  cj_name : string;
  cj_email : string;
  cj_phone : string }.

Definition Customer_to_dict (c : Customer) : customer_json :=
  mkCustomerJson (cust_id c) (_name c) (_email c) (_phone c).

(** *** Rounding to two decimals *)

(** [round(x, 2)] rounds the exact value of [x] to the nearest multiple of
    1/100, a tie going to the even neighbour. *)
Definition round_half_even (x : Q) : Z :=
  let f := Qfloor x in
  match Qcompare (x - inject_Z f) (1 # 2) with
  | Lt => f
  | Gt => f + 1
  | Eq => if Z.even f then f else f + 1
  end.

Definition round2 (x : Q) : Q := Qmake (round_half_even (x * inject_Z 100)) 100.

(** *** Product *)

Record Product : Type := mkProduct {
  prod_id : option Z;
  _title : string;
  _price : Q }.

Definition set_title (value : string) : result string :=
  let value := strip value in
  if negb (truthy value) then Raise (ValidationError "title must not be empty")
  else Ok value.

Definition set_price (v : Q) : result Q :=
  if Qlt_le_dec v 0 then Raise (ValidationError "price must not be negative")
  else Ok (round2 v).

Definition new_Product (id : option Z) (title : string) (price : Q) : result Product :=
  title' ← (if truthy title then set_title title else Ok title);
  price' ← set_price price;
  Ok (mkProduct id title' price').

Record product_json : Type := mkProductJson {
  pj_id : option Z;
  pj_title : string;
  pj_price : Q }.

Definition Product_to_dict (p : Product) : product_json :=
  mkProductJson (prod_id p) (_title p) (_price p).

(** *** OrderItem and Order *)

Record OrderItem : Type := mkOrderItem {
  item_id : option Z;
  product_id : Z;
  product_title : string;
  unit_price : Q;
  quantity : Z }.

Definition line_total (i : OrderItem) : Q :=
  round2 (unit_price i * inject_Z (quantity i)).

Record item_json : Type := mkItemJson {
  ij_id : option Z;
  ij_product_id : Z;
  ij_product_title : string;
  ij_unit_price : Q;
  ij_quantity : Z;
  ij_line_total : Q }.

Definition OrderItem_to_dict (i : OrderItem) : item_json :=
  mkItemJson (item_id i) (product_id i) (product_title i) (unit_price i)
    (quantity i) (line_total i).

(** A [datetime] carries microseconds; [isoformat(timespec="seconds")] cuts
    them off. The text it produces is identified with the second it names,
    so that [fromisoformat] of such a text has no microseconds. *)
Record datetime : Type := mkDatetime { seconds : Z; microsecond : Z }.
Definition isotext : Type := Z.
Definition isoformat_seconds (d : datetime) : isotext := seconds d.
Definition fromisoformat (t : isotext) : datetime := mkDatetime t 0.

Record Order : Type := mkOrder {
  order_id : option Z;
  customer_id : Z;
  created_at : datetime;
  items : list OrderItem }.



Definition add_item (o : Order) (item : OrderItem) : result Order :=
  if quantity item <? 1 then Raise (ValidationError "quantity must be >= 1")
  else Ok (mkOrder (order_id o) (customer_id o) (created_at o) (items o ++ [item])).

(** *** Validation at construction *)

Lemma truthy_strip (s : string) : truthy (strip s) = true -> truthy s = true.
Proof. destruct s; [discriminate | reflexivity]. Qed.

(** A customer whose trimmed name is not empty and whose email and phone
    are empty or match their patterns once trimmed is constructed, with the
    trimmed values as fields. *)
Lemma new_Customer_valid (id : option Z) (name email phone : string) :
  truthy (strip name) = true ->
  truthy (strip email) && negb (match_to_dollar EMAIL_RE (strip email)) = false ->
  truthy (strip phone) && negb (match_to_dollar PHONE_RE (strip phone)) = false ->
  new_Customer id name email phone =
    Ok (mkCustomer id (strip name) (strip email) (strip phone)).
Proof.
  intros Hn He Hp. unfold new_Customer, Person_post_init, set_name, set_email, set_phone.
  rewrite (truthy_strip _ Hn), Hn. cbn.
  destruct email as [|a email]; cbn [truthy].
  - destruct phone as [|b phone]; cbn [truthy]; [reflexivity|].
    rewrite Hp. reflexivity.
  - rewrite He. cbn.
    destruct phone as [|b phone]; cbn [truthy]; [reflexivity|].
    rewrite Hp. reflexivity.
Qed.

(** Trimming twice is trimming once. *)
Lemma rstrip_idem (s : string) : rstrip (rstrip s) = rstrip s.
Proof.
  induction s as [|c s IH]; [reflexivity|].
  cbn [rstrip]. destruct (rstrip s) as [|a r] eqn:E.
  - destruct (is_space c) eqn:Ec; [reflexivity|]. cbn. rewrite Ec. reflexivity.
  - change (rstrip (String c (String a r)))
      with (match rstrip (String a r) with
            | EmptyString => if is_space c then EmptyString else String c EmptyString
            | String x y => String c (String x y)
            end).
    rewrite IH. reflexivity.
Qed.

Lemma rstrip_head (c : ascii) (s : string) :
  is_space c = false -> exists r, rstrip (String c s) = String c r.
Proof.
  intros Hc. cbn [rstrip]. destruct (rstrip s); rewrite ?Hc; eauto.
Qed.

Lemma lstrip_shape (s : string) :
  lstrip s = EmptyString \/
  exists c r, lstrip s = String c r /\ is_space c = false.
Proof.
  induction s as [|c s IH]; [left; reflexivity|].
  cbn [lstrip]. destruct (is_space c) eqn:Ec; [exact IH|]. right. eauto.
Qed.

Lemma strip_idem (s : string) : strip (strip s) = strip s.
Proof.
  unfold strip. destruct (lstrip_shape s) as [E|(c & r & E & Hc)]; rewrite E.
  - reflexivity.
  - destruct (rstrip_head c r Hc) as [r' E']. rewrite E'.
    cbn [lstrip]. rewrite Hc, <- E'. apply rstrip_idem.
Qed.

(** A name made of whitespace only is refused. *)
Lemma new_Customer_blank_name (id : option Z) (name email phone : string) :
  truthy name = true -> truthy (strip name) = false ->
  new_Customer id name email phone = Raise (ValidationError "name must not be empty").
Proof.
  intros Hn Hs. unfold new_Customer, Person_post_init, set_name.
  rewrite Hn, Hs. reflexivity.
Qed.

(** C2. The claim asks that [Customer] refuses every empty name, and
    [test_customer_validation] expects [Customer(_name="")] to raise; the
    constructor skips the name setter when the name is the empty string and
    returns a customer whose name is empty. *)
Theorem new_Customer_empty_name_accepted :
  new_Customer None "" "" "" = Ok (mkCustomer None "" "" "") /\
  new_Customer None "" "ivan@example.com" "+371 12345678" =
    Ok (mkCustomer None "" "ivan@example.com" "+371 12345678").
Proof. split; vm_compute; reflexivity. Qed.

Example new_Customer_test_ok :
  new_Customer None "Ivan" "ivan@example.com" "+371 12345678" =
    Ok (mkCustomer None "Ivan" "ivan@example.com" "+371 12345678").
Proof. vm_compute. reflexivity. Qed.

Example new_Customer_test_bad_email :
  new_Customer None "Ivan" "bad-email" "" = Raise (ValidationError "invalid email").
Proof. vm_compute. reflexivity. Qed.

End Models.

(* ===================================================================== *)
(** ** db.py *)
(* ===================================================================== *)

Module Db.
Import Models.

(** *** The schema

    One record per table row. The tables are kept in rowid order, which is
    how SQLite stores a table whose key is INTEGER PRIMARY KEY; the
    [sqlite_sequence] counters of AUTOINCREMENT are part of the store. *)

Record customer_row : Type := mkCustomerRow {
  cr_id : Z; cr_name : string; cr_email : string; cr_phone : string }.

Record product_row : Type := mkProductRow {
  pr_id : Z; pr_title : string; pr_price : Q }.

Record order_row : Type := mkOrderRow {
  or_id : Z; or_customer_id : Z; or_created_at : isotext }.

Record item_row : Type := mkItemRow {
  ir_id : Z; ir_order_id : Z; ir_product_id : Z; ir_unit_price : Q; ir_quantity : Z }.

Record store : Type := mkStore {
  customers : list customer_row;
  products : list product_row;
  orders : list order_row;
  order_items : list item_row;
  seq_customers : Z;
  seq_products : Z;
  seq_orders : Z;
  seq_order_items : Z }.

Definition empty_store : store := mkStore [] [] [] [] 0 0 0 0.

(** A connection sees its own uncommitted writes ([working]); [committed]
    is what a commit last made durable. *)
Record connection : Type := mkConnection { working : store; committed : store }.

Definition connect (s : store) : connection := mkConnection s s.

(** Database calls: they change the connection and may raise, and a call
    that raises keeps the changes it made before. *)
Definition DbM (A : Type) : Type := connection -> result A * connection.

#[export] Instance DbM_ret : MRet DbM := fun A a c => (Ok a, c).
#[export] Instance DbM_bind : MBind DbM := fun A B k m c =>
  match m c with
  | (Ok a, c') => k a c'
  | (Raise e, c') => (Raise e, c')
  end.

Definition lift {A : Type} (r : result A) : DbM A := fun c => (r, c).
Definition update (f : store -> store) : DbM unit :=
  fun c => (Ok tt, mkConnection (f (working c)) (committed c)).
Definition commit : DbM unit :=
  fun c => (Ok tt, mkConnection (working c) (working c)).

Fixpoint for_each {A : Type} (l : list A) (body : A -> DbM unit) : DbM unit :=
  match l with
  | [] => mret tt
  | x :: l' => _ ← body x; for_each l' body
  end.

(** *** Keys, ordering and lookups *)

(** The rowid AUTOINCREMENT assigns: one more than the largest rowid the
    table has ever held. *)
Definition max_id (ids : list Z) : Z := fold_right Z.max 0 ids.
Definition next_id (seq : Z) (ids : list Z) : Z := Z.max seq (max_id ids) + 1.

(** ORDER BY on an integer column, ascending or descending. *)
Fixpoint insert_by {A : Type} (before : Z -> Z -> bool) (k : A -> Z) (x : A) (l : list A) : list A :=
  match l with
  | [] => [x]
  | y :: l' => if before (k x) (k y) then x :: l else y :: insert_by before k x l'
  end.

Definition order_by {A : Type} (k : A -> Z) (desc : bool) (l : list A) : list A :=
  fold_right (insert_by (if desc then Z.geb else Z.leb) k) [] l.

(** The row of a primary key, if any: PRIMARY KEY keeps the key unique, so
    that a join on it is a lookup. *)
Definition find_by {A : Type} (k : A -> Z) (id : Z) (l : list A) : option A :=
  List.find (fun x => k x =? id) l.

Definition fk_failed : exn := IntegrityError "FOREIGN KEY constraint failed".

(** *** Customers *)

Definition insert_customer (name email phone : string) : DbM Z := fun c =>
  let s := working c in
  let id := next_id (seq_customers s) (map cr_id (customers s)) in
  (Ok id,
   mkConnection
     (mkStore (customers s ++ [mkCustomerRow id name email phone]) (products s)
        (orders s) (order_items s) id (seq_products s) (seq_orders s)
        (seq_order_items s))
     (committed c)).

Definition add_customer (customer : Customer) : DbM Z :=
  id ← insert_customer (_name customer) (_email customer) (_phone customer);
  _ ← commit;
  mret id.

Fixpoint build {A B : Type} (f : A -> result B) (rows : list A) : result (list B) :=
  match rows with
  | [] => Ok []
  | r :: rows' => x ← f r; xs ← build f rows'; Ok (x :: xs)
  end.

Definition list_customers (s : store) : result (list Customer) :=
  build (fun r => new_Customer (Some (cr_id r)) (cr_name r) (cr_email r) (cr_phone r))
    (order_by cr_id true (customers s)).

(** *** Products *)

Definition insert_product (title : string) (price : Q) : DbM Z := fun c =>
  let s := working c in
  let id := next_id (seq_products s) (map pr_id (products s)) in
  (Ok id,
   mkConnection
     (mkStore (customers s) (products s ++ [mkProductRow id title price])
        (orders s) (order_items s) (seq_customers s) id (seq_orders s)
        (seq_order_items s))
     (committed c)).

Definition add_product (product : Product) : DbM Z :=
  id ← insert_product (_title product) (_price product);
  _ ← commit;
  mret id.

Definition list_products (s : store) : result (list Product) :=
  build (fun r => new_Product (Some (pr_id r)) (pr_title r) (pr_price r))
    (order_by pr_id true (products s)).

(** *** Orders *)

(** INSERT INTO orders: the foreign key on [customer_id] is checked by the
    statement itself. *)
Definition insert_order (customer : Z) (created : isotext) : DbM Z := fun c =>
  let s := working c in
  match find_by cr_id customer (customers s) with
  | None => (Raise fk_failed, c)
  | Some _ =>
      let id := next_id (seq_orders s) (map or_id (orders s)) in
      (Ok id,
       mkConnection
         (mkStore (customers s) (products s)
            (orders s ++ [mkOrderRow id customer created]) (order_items s)
            (seq_customers s) (seq_products s) id (seq_order_items s))
         (committed c))
  end.

(** INSERT INTO order_items: both foreign keys are checked. *)
Definition insert_item (order product : Z) (price : Q) (qty : Z) : DbM Z := fun c =>
  let s := working c in
  match find_by or_id order (orders s), find_by pr_id product (products s) with
  | Some _, Some _ =>
      let id := next_id (seq_order_items s) (map ir_id (order_items s)) in
      (Ok id,
       mkConnection
         (mkStore (customers s) (products s) (orders s)
            (order_items s ++ [mkItemRow id order product price qty])
            (seq_customers s) (seq_products s) (seq_orders s) id)
         (committed c))
  | _, _ => (Raise fk_failed, c)
  end.

Definition add_order (order : Order) : DbM Z :=
  order_id ← insert_order (customer_id order) (isoformat_seconds (created_at order));
  _ ← for_each (items order) (fun it =>
        _ ← insert_item order_id (product_id it) (unit_price it) (quantity it);
        mret tt);
  _ ← commit;
  mret order_id.

(** One row of [list_orders]. *)
Record order_view : Type := mkOrderView {
  ov_id : Z;
  ov_customer_id : Z;
  ov_customer_name : string;
  ov_created_at : isotext;
  ov_total : Q }.

(** SUM over the rows of a group is NULL when there is none. *)
Definition SUM (l : list Q) : option Q :=
  match l with
  | [] => None
  | _ => Some (fold_left Qplus l 0%Q)
  end.

Definition IFNULL (x : option Q) (d : Q) : Q := default d x.

Definition items_of (s : store) (oid : Z) : list item_row :=
  List.filter (fun oi => ir_order_id oi =? oid) (order_items s).

(** The query of [list_orders]: the inner join keeps the orders whose
    customer exists, the left join and GROUP BY gather the items of each. *)
Definition list_orders (s : store) : list order_view :=
  order_by ov_id true
    (omap (fun o =>
       c ← find_by cr_id (or_customer_id o) (customers s);
       Some (mkOrderView (or_id o) (or_customer_id o) (cr_name c) (or_created_at o)
               (IFNULL (SUM (map (fun oi => ir_unit_price oi * inject_Z (ir_quantity oi))%Q
                               (items_of s (or_id o)))) 0%Q)))
       (orders s)).

(** The query of [get_order_items]: an inner join with products. *)
Definition get_order_items (s : store) (oid : Z) : list OrderItem :=
  map (fun r : item_row * string =>
         mkOrderItem (Some (ir_id r.1)) (ir_product_id r.1) r.2
           (ir_unit_price r.1) (ir_quantity r.1))
    (order_by (fun r : item_row * string => ir_id r.1) false
       (omap (fun oi =>
          p ← find_by pr_id (ir_product_id oi) (products s);
          Some (oi, pr_title p))
          (items_of s oid))).

(** *** Export and import *)

Record order_json : Type := mkOrderJson {
  oj_id : Z;
  oj_customer_id : Z;
  oj_created_at : isotext;
  oj_total : Q;
  oj_items : list item_json }.

(** The export document; writing it to a file and reading it back is taken
    to return the same document. *)
Record document : Type := mkDocument {
  doc_customers : list customer_json;
  doc_products : list product_json;
  doc_orders : list order_json }.

Definition export_json (s : store) : result document :=
  cs ← list_customers s;
  ps ← list_products s;
  Ok (mkDocument (map Customer_to_dict cs) (map Product_to_dict ps)
        (map (fun o =>
                mkOrderJson (ov_id o) (ov_customer_id o) (ov_created_at o) (ov_total o)
                  (map OrderItem_to_dict (get_order_items s (ov_id o))))
           (list_orders s))).

(** DELETE FROM for each table, with the declared foreign key actions:
    items follow their order, orders follow their customer, and a product
    that an item still references cannot be deleted. *)
Definition delete_order_items : DbM unit :=
  update (fun s => mkStore (customers s) (products s) (orders s) []
                     (seq_customers s) (seq_products s) (seq_orders s) (seq_order_items s)).

Definition delete_orders : DbM unit :=
  update (fun s =>
    mkStore (customers s) (products s) []
      (List.filter (fun oi => negb (existsb (fun o => or_id o =? ir_order_id oi) (orders s)))
         (order_items s))
      (seq_customers s) (seq_products s) (seq_orders s) (seq_order_items s)).

Definition delete_products : DbM unit := fun c =>
  let s := working c in
  if existsb (fun oi => existsb (fun p => pr_id p =? ir_product_id oi) (products s))
       (order_items s)
  then (Raise fk_failed, c)
  else update (fun s => mkStore (customers s) [] (orders s) (order_items s)
                 (seq_customers s) (seq_products s) (seq_orders s) (seq_order_items s)) c.

Definition delete_customers : DbM unit :=
  update (fun s =>
    let gone (o : order_row) := existsb (fun c => cr_id c =? or_customer_id o) (customers s) in
    mkStore [] (products s)
      (List.filter (fun o => negb (gone o)) (orders s))
      (List.filter (fun oi => negb (existsb (fun o => (or_id o =? ir_order_id oi) && gone o)
                                      (orders s)))
         (order_items s))
      (seq_customers s) (seq_products s) (seq_orders s) (seq_order_items s)).

(** [executescript] commits what is pending, then runs the statements, each
    committed on its own. *)
Definition executescript (script : list (DbM unit)) : DbM unit :=
  _ ← commit;
  for_each script (fun statement => _ ← statement; commit).

Definition _clear_all : DbM unit :=
  _ ← executescript [delete_order_items; delete_orders; delete_products; delete_customers];
  commit.

(** [int(c.get("id") or new_id)]: a missing, null or zero id gives way to
    the new one. *)
Definition id_or (id : option Z) (new_id : Z) : Z :=
  match id with
  | Some i => if i =? 0 then new_id else i
  | None => new_id
  end.

(** [m.get(k, k)] *)
Definition remap (m : gmap Z Z) (k : Z) : Z := default k (m !! k).

Fixpoint import_customers (cs : list customer_json) (cust_map : gmap Z Z) : DbM (gmap Z Z) :=
  match cs with
  | [] => mret cust_map
  | c :: cs' =>
      cust ← lift (new_Customer None (cj_name c) (cj_email c) (cj_phone c));
      new_id ← add_customer cust;
      import_customers cs' (<[id_or (cj_id c) new_id := new_id]> cust_map)
  end.

Fixpoint import_products (ps : list product_json) (prod_map : gmap Z Z) : DbM (gmap Z Z) :=
  match ps with
  | [] => mret prod_map
  | p :: ps' =>
      prod ← lift (new_Product None (pj_title p) (pj_price p));
      new_id ← add_product prod;
      import_products ps' (<[id_or (pj_id p) new_id := new_id]> prod_map)
  end.

(** The inner loop over the items of one document order. *)
Fixpoint import_items (prod_map : gmap Z Z) (its : list item_json) (order : Order) : result Order :=
  match its with
  | [] => Ok order
  | it :: its' =>
      order' ← add_item order
        (mkOrderItem None (remap prod_map (ij_product_id it)) (ij_product_title it)
           (ij_unit_price it) (ij_quantity it));
      import_items prod_map its' order'
  end.

Definition import_order (cust_map prod_map : gmap Z Z) (o : order_json) : DbM unit :=
  order ← lift (import_items prod_map (oj_items o)
                  (mkOrder None (remap cust_map (oj_customer_id o))
                     (fromisoformat (oj_created_at o)) []));
  _ ← add_order order;
  mret tt.

Definition import_json (data : document) (clear_first : bool) : DbM unit :=
  _ ← (if clear_first then _clear_all else mret tt);
  cust_map ← import_customers (doc_customers data) ∅;
  prod_map ← import_products (doc_products data) ∅;
  for_each (doc_orders data) (import_order cust_map prod_map).

End Db.

(* ===================================================================== *)
(** ** analysis.py *)
(* ===================================================================== *)

Module Analysis.
Import Models Db.

(** A row of [items_df]: the item's [to_dict] with its [order_id]. *)
Record item_record : Type := mkItemRecord { it_dict : item_json; it_order_id : Z }.

(** [build_dataframes]; the [date] column of [orders_df] is left out. *)
Definition build_dataframes (s : store)
  : result (list customer_json * list product_json * list order_view * list item_record) :=
  cs ← list_customers s;
  ps ← list_products s;
  let orders := list_orders s in
  let items :=
    flat_map (fun o => map (fun it => mkItemRecord (OrderItem_to_dict it) (ov_id o))
                         (get_order_items s (ov_id o))) orders in
  Ok (map Customer_to_dict cs, map Product_to_dict ps, orders, items).

(** *** groupby *)

(** The keys of a [groupby]: the distinct values, sorted. *)
Fixpoint insert_key (x : string) (l : list string) : list string :=
  match l with
  | [] => [x]
  | y :: l' => if String.leb x y then x :: l else y :: insert_key x l'
  end.

Definition group_keys (names : list string) : list string :=
  fold_right insert_key [] (remove_dups names).

(** [orders_df.groupby("customer_name")["id"].count()] *)
Definition count_by_name (orders : list order_view) : list (string * nat) :=
  map (fun n => (n, length (List.filter (fun o => String.eqb (ov_customer_name o) n) orders)))
    (group_keys (map ov_customer_name orders)).

Section Ranking.
(** [sort_values(ascending=False)]: pandas leaves the order of equal counts
    to its sorting routine; any rearrangement of the entries by
    non-increasing count stands for it. *)
Variable sort_values : list (string * nat) -> list (string * nat).

(** [top_customers_by_orders]: the series that is plotted, or [None] for
    the "no data" picture. *)
Definition top_customers_by_orders (s : store) : result (option (list (string * nat))) :=
  '(_, _, orders_df, _) ← build_dataframes s;
  match orders_df with
  | [] => Ok None
  | _ => Ok (Some (take 5 (sort_values (count_by_name orders_df))))
  end.
End Ranking.

(** *** The relationship graph *)

(** [orders_df.set_index("id")["customer_name"].to_dict()] *)
Definition order_to_customer (orders : list order_view) : gmap Z string :=
  fold_left (fun m o => <[ov_id o := ov_customer_name o]> m) orders ∅.

(** The [customer_name] column added to [items_df]. *)
Definition item_customer (otc : gmap Z string) (it : item_record) : option string :=
  otc !! it_order_id it.

(** [items_df.groupby("customer_name")["product_id"].apply(set).to_dict()]:
    the dictionary, and its keys in the order the dictionary holds them. *)
Definition cust_products_of (otc : gmap Z string) (items : list item_record)
  : gmap string (gset Z) :=
  fold_left (fun m it =>
     match item_customer otc it with
     | Some n => <[n := {[ij_product_id (it_dict it)]} ∪ m !!! n]> m
     | None => m
     end) items ∅.

Definition cust_list_of (otc : gmap Z string) (items : list item_record) : list string :=
  group_keys (omap (item_customer otc) items).

(** [networkx.Graph]: the adjacency dictionary, with the weight of each
    edge stored under both of its ends. *)
Abbreviation Graph := (gmap string (gmap string nat)).

Definition add_node (n : string) (G : Graph) : Graph :=
  match G !! n with
  | Some _ => G
  | None => <[n := ∅]> G
  end.

Definition add_edge (a b : string) (weight : nat) (G : Graph) : Graph :=
  let G := add_node b (add_node a G) in
  let G := <[a := <[b := weight]> (G !!! a)]> G in
  <[b := <[a := weight]> (G !!! b)]> G.

Definition edge_weight (G : Graph) (a b : string) : option nat :=
  adj ← G !! a; adj !! b.

(** The two nested loops over [cust_list]. *)
Fixpoint link_with (cp : gmap string (gset Z)) (a : string) (rest : list string) (G : Graph) : Graph :=
  match rest with
  | [] => G
  | b :: rest' =>
      let shared := (cp !!! a) ∩ (cp !!! b) in
      link_with cp a rest'
        (if decide (shared = ∅) then G else add_edge a b (size shared) G)
  end.

Fixpoint link_all (cp : gmap string (gset Z)) (l : list string) (G : Graph) : Graph :=
  match l with
  | [] => G
  | a :: rest => link_all cp rest (link_with cp a rest G)
  end.

Definition build_graph (cp : gmap string (gset Z)) (cust_list : list string) : Graph :=
  link_all cp cust_list (fold_left (fun G cust => add_node cust G) cust_list ∅).

(** [customer_relationship_graph]: the graph that is drawn, or [None] for
    the "no data" picture. *)
Definition customer_relationship_graph (s : store) : result (option Graph) :=
  '(_, _, orders_df, items_df) ← build_dataframes s;
  match orders_df, items_df with
  | [], _ | _, [] => Ok None
  | _, _ =>
      let otc := order_to_customer orders_df in
      Ok (Some (build_graph (cust_products_of otc items_df) (cust_list_of otc items_df)))
  end.

End Analysis.

(* ===================================================================== *)
(** ** Properties of the store *)
(* ===================================================================== *)

Module StoreFacts.
Import Models Db.

(** *** ORDER BY *)

Lemma insert_by_perm {A : Type} before (k : A -> Z) x l :
  Permutation (insert_by before k x l) (x :: l).
Proof.
  induction l as [|y l IH]; simpl; [reflexivity|].
  destruct (before (k x) (k y)); [reflexivity|].
  rewrite IH. apply perm_swap.
Qed.

Lemma order_by_perm {A : Type} (k : A -> Z) desc l :
  Permutation (order_by k desc l) l.
Proof.
  unfold order_by. induction l as [|x l IH]; simpl; [reflexivity|].
  rewrite insert_by_perm, IH. reflexivity.
Qed.

Lemma order_by_In {A : Type} (k : A -> Z) desc l x :
  In x (order_by k desc l) <-> In x l.
Proof.
  split; apply Permutation_in; [|symmetry]; apply order_by_perm.
Qed.

(** A table in rowid order is what ORDER BY id returns. *)
Lemma insert_by_asc_head {A : Type} (k : A -> Z) x l :
  Forall (fun y => k x < k y) l -> insert_by Z.leb k x l = x :: l.
Proof.
  destruct l as [|y l]; [reflexivity|]. intros H. simpl.
  apply Forall_inv in H. cbv beta in H.
  destruct (Z.leb_spec (k x) (k y)); [reflexivity|lia].
Qed.

Lemma order_by_asc_sorted {A : Type} (k : A -> Z) l :
  StronglySorted (fun x y => k x < k y) l -> order_by k false l = l.
Proof.
  unfold order_by. induction 1 as [|x l Hs IH Hx]; simpl; [reflexivity|].
  rewrite IH. apply insert_by_asc_head. exact Hx.
Qed.

Lemma insert_by_desc_last {A : Type} (k : A -> Z) x l :
  Forall (fun y => k x < k y) l -> insert_by Z.geb k x l = l ++ [x].
Proof.
  induction l as [|y l IH]; [reflexivity|]. intros H. simpl.
  pose proof (Forall_inv H) as Hy. cbv beta in Hy. apply Forall_inv_tail in H.
  rewrite Z.geb_leb. destruct (Z.leb_spec (k y) (k x)); [lia|].
  rewrite IH by assumption. reflexivity.
Qed.

Lemma order_by_desc_sorted {A : Type} (k : A -> Z) l :
  StronglySorted (fun x y => k x < k y) l -> order_by k true l = rev l.
Proof.
  unfold order_by. induction 1 as [|x l Hs IH Hx]; simpl; [reflexivity|].
  rewrite IH. apply insert_by_desc_last.
  rewrite List.Forall_forall in *. intros y Hy. apply Hx. apply in_rev. exact Hy.
Qed.

(** *** The total of [list_orders] against [Order.total] *)



(** An amount that is a whole number of cents. *)
Definition whole_cents (q : Q) : Prop := exists z : Z, (q == z # 100)%Q.






Lemma whole_cents_eq (x y : Q) : (x == y)%Q -> whole_cents x -> whole_cents y.
Proof. intros E [a Ha]. exists a. rewrite <- E. exact Ha. Qed.



Lemma list_orders_inv (s : store) (ov : order_view) :
  In ov (list_orders s) ->
  exists o c, In o (orders s) /\
    find_by cr_id (or_customer_id o) (customers s) = Some c /\
    ov = mkOrderView (or_id o) (or_customer_id o) (cr_name c) (or_created_at o)
           (IFNULL (SUM (map (fun oi => ir_unit_price oi * inject_Z (ir_quantity oi))%Q
                           (items_of s (or_id o)))) 0%Q).
Proof.
  unfold list_orders. rewrite order_by_In, <- list_elem_of_In, list_elem_of_omap.
  intros (o & Ho & Hf). apply list_elem_of_In in Ho.
  destruct (find_by cr_id (or_customer_id o) (customers s)) as [c|] eqn:Hc;
    [|discriminate].
  exists o, c. cbn in Hf. injection Hf as <-. auto.
Qed.

(** Running a call for its effect on the connection. *)
Definition exec {A : Type} (m : DbM A) (c : connection) : connection := (m c).2.

(** A store made through the API: one customer, one product and one order
    of a single line at the unit price 0.125. *)
Definition eighth_store : store :=
  working
    (exec (add_order (mkOrder None 1 (mkDatetime 1735689600 0)
                        [mkOrderItem None 1 "Sample" (1 # 8) 1]))
       (exec (add_product (mkProduct None "Sample" (13 # 100)))
          (exec (add_customer (mkCustomer None "Alice" "" ""))
             (connect empty_store)))).




(** *** Reading the items of an order *)

Lemma StronglySorted_omap {A B : Type} (kA : A -> Z) (kB : B -> Z) (g : A -> option B) l :
  (forall x y, g x = Some y -> kB y = kA x) ->
  StronglySorted (fun a b => kA a < kA b) l ->
  StronglySorted (fun a b => kB a < kB b) (omap g l).
Proof.
  intros Hg. induction 1 as [|x l Hs IH Hx]; cbn; [constructor|].
  destruct (g x) as [y|] eqn:E; [|exact IH].
  constructor; [exact IH|].
  rewrite List.Forall_forall in *. intros z Hz.
  apply list_elem_of_In, list_elem_of_omap in Hz as (w & Hw & Ew).
  apply list_elem_of_In in Hw.
  rewrite (Hg _ _ E), (Hg _ _ Ew). apply Hx. exact Hw.
Qed.

Lemma StronglySorted_filter_id {A : Type} (k : A -> Z) (f : A -> bool) l :
  StronglySorted (fun a b => k a < k b) l ->
  StronglySorted (fun a b => k a < k b) (List.filter f l).
Proof.
  induction 1 as [|x l Hs IH Hx]; cbn; [constructor|].
  destruct (f x); [|exact IH].
  constructor; [exact IH|].
  rewrite List.Forall_forall in *. intros z Hz.
  apply List.filter_In in Hz as [Hz _]. apply Hx. exact Hz.
Qed.

(** The join of one stored line with its product. *)
Definition joined_item (s : store) (r : item_row) : option OrderItem :=
  p ← find_by pr_id (ir_product_id r) (products s);
  Some (mkOrderItem (Some (ir_id r)) (ir_product_id r) (pr_title p)
          (ir_unit_price r) (ir_quantity r)).

Lemma get_order_items_sorted (s : store) (oid : Z) :
  StronglySorted (fun a b => ir_id a < ir_id b) (order_items s) ->
  get_order_items s oid = omap (joined_item s) (items_of s oid).
Proof.
  intros Hs. unfold get_order_items.
  rewrite order_by_asc_sorted.
  - induction (items_of s oid) as [|r l IH]; [reflexivity|].
    cbn. unfold joined_item at 1.
    destruct (find_by pr_id (ir_product_id r) (products s)); cbn; [f_equal|]; exact IH.
  - apply (StronglySorted_omap ir_id (fun r : item_row * string => ir_id r.1)).
    + intros x y Hxy.
      destruct (find_by pr_id (ir_product_id x) (products s)); [|discriminate].
      cbn in Hxy. injection Hxy as <-. reflexivity.
    + apply StronglySorted_filter_id. exact Hs.
Qed.

(** A store in which the product of the second line of order 1 is gone. *)
Definition dangling_store : store :=
  mkStore [mkCustomerRow 1 "Alice" "" ""]
    [mkProductRow 1 "Keyboard" (50 # 1)]
    [mkOrderRow 1 1 1735689600]
    [mkItemRow 1 1 1 (50 # 1) 1; mkItemRow 2 1 2 (20 # 1) 2]
    1 2 1 2.

(** The claim C6 as stated fails: the line whose product is missing is
    dropped from the answer, there is no fall-back title. *)
Lemma get_order_items_drops_dangling :
  exists r, In r (order_items dangling_store) /\ ir_order_id r = 1 /\
    find_by pr_id (ir_product_id r) (products dangling_store) = None /\
    ~ In (Some (ir_id r)) (map item_id (get_order_items dangling_store 1)).
Proof.
  exists (mkItemRow 2 1 2 (20 # 1) 2).
  split; [right; left; reflexivity|]. split; [reflexivity|]. split; [reflexivity|].
  cbn. intros [H|[]]. discriminate H.
Qed.

(** C6, amended. With the items table in rowid order, [get_order_items]
    returns, in that (insertion) order, the stored lines of the order whose
    product row exists, each with the stored price and quantity and the
    current title of its product; a line whose product row is missing is
    left out, and when every line of the order has its product none is. *)
Theorem get_order_items_joins_products (s : store) (oid : Z) :
  StronglySorted (fun a b => ir_id a < ir_id b) (order_items s) ->
  get_order_items s oid =
    omap (fun r =>
            p ← find_by pr_id (ir_product_id r) (products s);
            Some (mkOrderItem (Some (ir_id r)) (ir_product_id r) (pr_title p)
                    (ir_unit_price r) (ir_quantity r)))
      (List.filter (fun r => ir_order_id r =? oid) (order_items s)) /\
  (Forall (fun r => is_Some (find_by pr_id (ir_product_id r) (products s)))
     (List.filter (fun r => ir_order_id r =? oid) (order_items s)) ->
   map item_id (get_order_items s oid) =
     map (fun r => Some (ir_id r))
       (List.filter (fun r => ir_order_id r =? oid) (order_items s))).
Proof.
  intros Hs. rewrite (get_order_items_sorted s oid Hs).
  split; [reflexivity|]. unfold items_of.
  induction (List.filter (fun r => ir_order_id r =? oid) (order_items s)) as [|r l IH];
    intros Hall; [reflexivity|].
  apply Forall_cons in Hall as [[p Hp] Hall].
  cbn. unfold joined_item at 1. rewrite Hp. cbn. f_equal. apply IH. exact Hall.
Qed.

Lemma get_order_items_joins_products_witness :
  get_order_items eighth_store 1 = [mkOrderItem (Some 1) 1 "Sample" (1 # 8) 1].
Proof.
  rewrite (proj1 (get_order_items_joins_products eighth_store 1
                    ltac:(repeat constructor))).
  reflexivity.
Defined.

(** *** Fresh identifiers and tables in rowid order *)

Definition sorted_by {A : Type} (k : A -> Z) (l : list A) : Prop :=
  StronglySorted (fun a b => k a < k b) l.

Lemma max_id_ge (ids : list Z) (i : Z) : In i ids -> i <= max_id ids.
Proof.
  induction ids as [|j ids IH]; [intros []|].
  change (max_id (j :: ids)) with (Z.max j (max_id ids)).
  intros [->|H]; [lia|]. specialize (IH H). lia.
Qed.

Lemma next_id_fresh (seq : Z) (ids : list Z) (i : Z) : In i ids -> i < next_id seq ids.
Proof. intros H. apply max_id_ge in H. unfold next_id. lia. Qed.

Lemma sorted_by_snoc {A : Type} (k : A -> Z) (l : list A) (x : A) :
  sorted_by k l -> (forall y, In y l -> k y < k x) -> sorted_by k (l ++ [x]).
Proof.
  unfold sorted_by. induction 1 as [|y l Hs IH Hy]; intros Hx; cbn.
  - repeat constructor.
  - constructor.
    + apply IH. intros z Hz. apply Hx. right. exact Hz.
    + rewrite List.Forall_forall in *. intros z Hz.
      apply in_app_or in Hz as [Hz|[<-|[]]]; [apply Hy, Hz|].
      apply Hx. left. reflexivity.
Qed.

Lemma sorted_by_next {A : Type} (k : A -> Z) (l : list A) (seq : Z) (x : A) :
  sorted_by k l -> k x = next_id seq (map k l) -> sorted_by k (l ++ [x]).
Proof.
  intros Hs Hx. apply sorted_by_snoc; [exact Hs|].
  intros y Hy. rewrite Hx. apply next_id_fresh, in_map, Hy.
Qed.


Lemma find_by_fresh {A : Type} (k : A -> Z) (id : Z) (l : list A) :
  (forall y, In y l -> k y < id) -> find_by k id l = None.
Proof.
  unfold find_by. induction l as [|y l IH]; cbn; [reflexivity|]. intros H.
  destruct (Z.eqb_spec (k y) id) as [E|_].
  - specialize (H y (or_introl eq_refl)). lia.
  - apply IH. intros z Hz. apply H. right. exact Hz.
Qed.

Lemma find_by_snoc_new {A : Type} (k : A -> Z) (l : list A) (x : A) :
  (forall y, In y l -> k y < k x) -> find_by k (k x) (l ++ [x]) = Some x.
Proof.
  unfold find_by. induction l as [|y l IH]; cbn; intros H.
  - rewrite Z.eqb_refl. reflexivity.
  - destruct (Z.eqb_spec (k y) (k x)) as [E|_].
    + specialize (H y (or_introl eq_refl)). lia.
    + apply IH. intros z Hz. apply H. right. exact Hz.
Qed.

Lemma find_by_Some {A : Type} (k : A -> Z) (id : Z) (l : list A) (x : A) :
  find_by k id l = Some x -> In x l /\ k x = id.
Proof.
  unfold find_by. intros H. apply find_some in H as [H1 H2].
  split; [exact H1 | lia].
Qed.


(** *** What the inserts do to the store *)

Definition with_customer (s : store) (r : customer_row) : store :=
  mkStore (customers s ++ [r]) (products s) (orders s) (order_items s)
    (cr_id r) (seq_products s) (seq_orders s) (seq_order_items s).

Definition with_product (s : store) (r : product_row) : store :=
  mkStore (customers s) (products s ++ [r]) (orders s) (order_items s)
    (seq_customers s) (pr_id r) (seq_orders s) (seq_order_items s).

Definition with_order (s : store) (r : order_row) : store :=
  mkStore (customers s) (products s) (orders s ++ [r]) (order_items s)
    (seq_customers s) (seq_products s) (or_id r) (seq_order_items s).

Definition with_item (s : store) (r : item_row) : store :=
  mkStore (customers s) (products s) (orders s) (order_items s ++ [r])
    (seq_customers s) (seq_products s) (seq_orders s) (ir_id r).

Definition new_customer_row (s : store) (name email phone : string) : customer_row :=
  mkCustomerRow (next_id (seq_customers s) (map cr_id (customers s))) name email phone.

Definition new_product_row (s : store) (title : string) (price : Q) : product_row :=
  mkProductRow (next_id (seq_products s) (map pr_id (products s))) title price.

Definition new_order_row (s : store) (customer : Z) (created : isotext) : order_row :=
  mkOrderRow (next_id (seq_orders s) (map or_id (orders s))) customer created.

Definition new_item_row (s : store) (order : Z) (it : OrderItem) : item_row :=
  mkItemRow (next_id (seq_order_items s) (map ir_id (order_items s))) order
    (product_id it) (unit_price it) (quantity it).

(** The store after the items of one order have been inserted in turn. *)
Fixpoint store_items (order : Z) (its : list OrderItem) (s : store) : store :=
  match its with
  | [] => s
  | it :: its' => store_items order its' (with_item s (new_item_row s order it))
  end.

Lemma bind_run {A B : Type} (m : DbM A) (k : A -> DbM B) (c : connection) :
  (m ≫= k) c =
    match m c with
    | (Ok a, c') => k a c'
    | (Raise e, c') => (Raise e, c')
    end.
Proof. reflexivity. Qed.

Lemma add_customer_run (cu : Customer) (c : connection) :
  add_customer cu c =
    let r := new_customer_row (working c) (_name cu) (_email cu) (_phone cu) in
    (Ok (cr_id r), connect (with_customer (working c) r)).
Proof. reflexivity. Qed.

Lemma add_product_run (p : Product) (c : connection) :
  add_product p c =
    let r := new_product_row (working c) (_title p) (_price p) in
    (Ok (pr_id r), connect (with_product (working c) r)).
Proof. reflexivity. Qed.

Lemma store_items_frame (order : Z) (its : list OrderItem) (s : store) :
  customers (store_items order its s) = customers s /\
  products (store_items order its s) = products s /\
  orders (store_items order its s) = orders s.
Proof.
  revert s. induction its as [|it its IH]; intros s; cbn; [auto|].
  destruct (IH (with_item s (new_item_row s order it))) as (-> & -> & ->). auto.
Qed.

Lemma insert_items_run (order : Z) (its : list OrderItem) (c : connection) :
  is_Some (find_by or_id order (orders (working c))) ->
  Forall (fun it => is_Some (find_by pr_id (product_id it) (products (working c)))) its ->
  for_each its (fun it =>
      _ ← insert_item order (product_id it) (unit_price it) (quantity it); mret tt) c =
    (Ok tt, mkConnection (store_items order its (working c)) (committed c)).
Proof.
  intros Ho Hp. revert c Ho Hp. induction its as [|it its IH]; intros c Ho Hp.
  - destruct c. reflexivity.
  - apply Forall_cons in Hp as [Hit Hp].
    cbn [for_each]. rewrite bind_run, bind_run. unfold insert_item at 1.
    destruct Ho as [o Ho], Hit as [p Hit]. rewrite Ho, Hit.
    cbn [mret DbM_ret]. rewrite IH; [reflexivity | cbn; eauto | exact Hp].
Qed.

Lemma add_order_run (o : Order) (c : connection) :
  is_Some (find_by cr_id (customer_id o) (customers (working c))) ->
  Forall (fun it => is_Some (find_by pr_id (product_id it) (products (working c))))
    (items o) ->
  add_order o c =
    let r := new_order_row (working c) (customer_id o) (isoformat_seconds (created_at o)) in
    (Ok (or_id r), connect (store_items (or_id r) (items o) (with_order (working c) r))).
Proof.
  intros [cu Hc] Hp. unfold add_order. rewrite bind_run. unfold insert_order at 1.
  rewrite Hc. rewrite bind_run, insert_items_run; [reflexivity | | exact Hp].
  eexists. apply (find_by_snoc_new or_id (orders (working c))
                    (new_order_row (working c) (customer_id o)
                       (isoformat_seconds (created_at o)))).
  intros y Hy. apply next_id_fresh, in_map, Hy.
Qed.

(** *** add_order and atomicity *)

(** When every reference of the order resolves, header and lines are
    inserted and committed together. *)
Lemma add_order_commits_whole_order (o : Order) (c : connection) :
  is_Some (find_by cr_id (customer_id o) (customers (working c))) ->
  Forall (fun it => is_Some (find_by pr_id (product_id it) (products (working c))))
    (items o) ->
  exists k, (add_order o c).1 = Ok k /\
    committed (add_order o c).2 = working (add_order o c).2 /\
    In k (map or_id (orders (working (add_order o c).2))).
Proof.
  intros Hc Hp. rewrite (add_order_run o c Hc Hp). cbn.
  eexists. split; [reflexivity|]. split; [reflexivity|].
  destruct (store_items_frame
              (next_id (seq_orders (working c)) (map or_id (orders (working c))))
              (items o)
              (with_order (working c)
                 (new_order_row (working c) (customer_id o)
                    (isoformat_seconds (created_at o))))) as (_ & _ & ->).
  cbn. rewrite map_app. apply in_or_app. right. left. reflexivity.
Qed.

(** A shop with one customer and one product, and an order whose second
    line names a product that does not exist. *)
Definition shop_store : store :=
  working
    (exec (add_product (mkProduct None "Keyboard" (50 # 1)))
       (exec (add_customer (mkCustomer None "Alice" "" "")) (connect empty_store))).

Definition half_order : Order :=
  mkOrder None 1 (mkDatetime 1735689600 0)
    [mkOrderItem None 1 "Keyboard" (50 # 1) 1; mkOrderItem None 99 "Ghost" (5 # 1) 1].

Definition after_failed_order : connection :=
  exec (add_order half_order) (connect shop_store).

(** C9. The claim asks that a failed [add_order] leaves the store as it
    was. Here the insert of the second line raises; the header and the
    first line stay in the open transaction, the connection reads them
    back, and the next commit (that of [add_customer]) makes them durable. *)
Theorem add_order_failure_keeps_partial_order :
  (add_order half_order (connect shop_store)).1 = Raise fk_failed /\
  committed after_failed_order = shop_store /\
  map ov_id (list_orders (working after_failed_order)) = [1] /\
  map item_id (get_order_items (working after_failed_order) 1) = [Some 1] /\
  orders (committed (exec (add_customer (mkCustomer None "Bob" "" "")) after_failed_order)) =
    [mkOrderRow 1 1 1735689600] /\
  order_items (committed (exec (add_customer (mkCustomer None "Bob" "" "")) after_failed_order)) =
    [mkItemRow 1 1 1 (50 # 1) 1].
Proof. repeat split. Qed.

(** *** import_json: clearing and remapping *)

Definition cleared (s : store) : store :=
  mkStore [] [] [] [] (seq_customers s) (seq_products s) (seq_orders s) (seq_order_items s).

(** [_clear_all] never raises: the items are gone before the products they
    reference are deleted. The counters of AUTOINCREMENT are kept. *)
Lemma _clear_all_run (c : connection) :
  _clear_all c = (Ok tt, connect (cleared (working c))).
Proof. destruct c as [[cs ps os its sc sp so si] t]. reflexivity. Qed.

(** Deleting the products first is refused while an item references one. *)
Example delete_products_first_fails :
  (executescript [delete_products; delete_order_items] (connect eighth_store)).1 =
    Raise fk_failed.
Proof. reflexivity. Qed.



Lemma insert_items_inv (order : Z) (its : list OrderItem) (c c' : connection) :
  for_each its (fun it =>
      _ ← insert_item order (product_id it) (unit_price it) (quantity it); mret tt) c =
    (Ok tt, c') ->
  c' = mkConnection (store_items order its (working c)) (committed c).
Proof.
  revert c. induction its as [|it its IH]; intros c.
  - cbn. intros [= <-]. destruct c; reflexivity.
  - cbn [for_each]. rewrite bind_run, bind_run. unfold insert_item at 1.
    destruct (find_by or_id order (orders (working c))); [|discriminate].
    destruct (find_by pr_id (product_id it) (products (working c))); [|discriminate].
    cbn [mret DbM_ret]. intros H. apply IH in H. exact H.
Qed.

Lemma add_order_inv (o : Order) (c c' : connection) (k : Z) :
  add_order o c = (Ok k, c') ->
  k = or_id (new_order_row (working c) (customer_id o) (isoformat_seconds (created_at o))) /\
  c' = connect (store_items k (items o)
                  (with_order (working c)
                     (new_order_row (working c) (customer_id o)
                        (isoformat_seconds (created_at o))))).
Proof.
  unfold add_order. rewrite bind_run. unfold insert_order at 1.
  destruct (find_by cr_id (customer_id o) (customers (working c))); [|discriminate].
  rewrite bind_run.
  match goal with
  | |- context [for_each ?l ?f ?c0] => destruct (for_each l f c0) as [[[]|e] c1] eqn:E
  end; [|discriminate].
  apply insert_items_inv in E. subst c1. cbn. intros [= <- <-]. split; reflexivity.
Qed.

(** The rows that the items of one order add to the table. *)
Lemma store_items_rows (order : Z) (its : list OrderItem) (s : store) :
  exists rows,
    order_items (store_items order its s) = order_items s ++ rows /\
    Forall2 (fun it r =>
               ir_order_id r = order /\ ir_product_id r = product_id it /\
               ir_unit_price r = unit_price it /\ ir_quantity r = quantity it)
      its rows /\
    (sorted_by ir_id (order_items s) -> sorted_by ir_id (order_items s ++ rows)).
Proof.
  revert s. induction its as [|it its IH]; intros s.
  - exists []. cbn. rewrite app_nil_r. auto.
  - cbn [store_items].
    destruct (IH (with_item s (new_item_row s order it))) as (rows & E & F & S).
    exists (new_item_row s order it :: rows). rewrite E. cbn [order_items with_item].
    rewrite <- app_assoc. split; [reflexivity|]. split.
    + constructor; [cbn; auto | exact F].
    + intros Hs. change (order_items s ++ new_item_row s order it :: rows)
        with (order_items s ++ [new_item_row s order it] ++ rows).
      rewrite app_assoc. apply S. cbn.
      apply (sorted_by_next ir_id _ (seq_order_items s)); [exact Hs | reflexivity].
Qed.









(** A document whose only order refers to customer 1 and product 1 without
    listing either: imported into [shop_store], which holds both. *)
Definition passthrough_doc : document :=
  mkDocument [] []
    [mkOrderJson 7 1 1735689600 (50 # 1)
       [mkItemJson (Some 9) 1 "Keyboard" (50 # 1) 1 (50 # 1)]].

Example import_passthrough :
  (import_json passthrough_doc false (connect shop_store)).1 = Ok tt /\
  orders (working (exec (import_json passthrough_doc false) (connect shop_store))) =
    [mkOrderRow 1 1 1735689600] /\
  order_items (working (exec (import_json passthrough_doc false) (connect shop_store))) =
    [mkItemRow 1 1 1 (50 # 1) 1].
Proof. repeat split. Qed.


End StoreFacts.

(* ===================================================================== *)
(** ** Properties of the analytics *)
(* ===================================================================== *)

Module GraphFacts.
Import Models Db Analysis StoreFacts.

(** *** The graph as a table of weights *)

Lemma lookup_total_edge (G : Graph) (a b : string) :
  (G !!! a) !! b = edge_weight G a b.
Proof.
  unfold edge_weight. rewrite lookup_total_alt.
  destruct (G !! a); reflexivity.
Qed.

Lemma edge_weight_add_node (n : string) (G : Graph) (x y : string) :
  edge_weight (add_node n G) x y = edge_weight G x y.
Proof.
  unfold add_node. destruct (G !! n) eqn:E; [reflexivity|].
  unfold edge_weight. destruct (decide (n = x)) as [->|Hne].
  - rewrite lookup_insert_eq, E. reflexivity.
  - rewrite lookup_insert_ne by exact Hne. reflexivity.
Qed.

Lemma dom_add_node (n : string) (G : Graph) : dom (add_node n G) = {[n]} ∪ dom G.
Proof.
  unfold add_node. destruct (G !! n) eqn:E.
  - apply (elem_of_dom_2 G) in E. set_solver.
  - rewrite dom_insert_L. reflexivity.
Qed.

(** The weight table after [add_edge]: the edge is stored under both ends. *)
Lemma edge_weight_add_edge (a b : string) (w : nat) (G : Graph) (x y : string) :
  a <> b ->
  edge_weight (add_edge a b w G) x y =
    if bool_decide ((x = a /\ y = b) \/ (x = b /\ y = a)) then Some w
    else edge_weight G x y.
Proof.
  intros Hab. unfold add_edge.
  set (G1 := add_node b (add_node a G)).
  assert (H1 : forall u v, edge_weight G1 u v = edge_weight G u v)
    by (intros; unfold G1; rewrite !edge_weight_add_node; reflexivity).
  set (G2 := <[a := <[b := w]> (G1 !!! a)]> G1).
  assert (H2 : forall u v, edge_weight G2 u v =
                 if bool_decide (u = a /\ v = b) then Some w else edge_weight G u v).
  { intros u v. unfold edge_weight at 1, G2.
    destruct (decide (a = u)) as [<-|Hu].
    - rewrite lookup_insert_eq. cbn.
      destruct (decide (b = v)) as [<-|Hv].
      + rewrite lookup_insert_eq, bool_decide_eq_true_2 by auto. reflexivity.
      + rewrite lookup_insert_ne, lookup_total_edge, H1 by exact Hv.
        rewrite bool_decide_eq_false_2 by (intros [_ ?]; congruence). reflexivity.
    - rewrite lookup_insert_ne by exact Hu.
      rewrite bool_decide_eq_false_2 by (intros [? _]; congruence).
      apply H1. }
  unfold edge_weight at 1.
  destruct (decide (b = x)) as [<-|Hx].
  - rewrite lookup_insert_eq. cbn.
    destruct (decide (a = y)) as [<-|Hy].
    + rewrite lookup_insert_eq, bool_decide_eq_true_2 by auto. reflexivity.
    + rewrite lookup_insert_ne, lookup_total_edge, H2 by exact Hy.
      rewrite bool_decide_eq_false_2 by (intros [? _]; congruence).
      rewrite bool_decide_eq_false_2 by (intros [[? ?]|[_ ?]]; congruence).
      reflexivity.
  - rewrite lookup_insert_ne by exact Hx.
    change (edge_weight G2 x y = if bool_decide ((x = a /\ y = b) \/ (x = b /\ y = a))
                                 then Some w else edge_weight G x y).
    rewrite H2. destruct (decide (x = a /\ y = b)) as [H|H].
    + rewrite !bool_decide_eq_true_2 by auto. reflexivity.
    + rewrite !bool_decide_eq_false_2; [reflexivity | | exact H].
      intros [?|[? _]]; [contradiction | congruence].
Qed.

Lemma dom_add_edge (a b : string) (w : nat) (G : Graph) :
  dom (add_edge a b w G) = {[a]} ∪ {[b]} ∪ dom G.
Proof.
  unfold add_edge. rewrite !dom_insert_L, !dom_add_node. set_solver.
Qed.

(** The weight two sets of products give an edge, if any. *)
Definition shared_weight (A B : gset Z) : option nat :=
  if decide (A ∩ B = ∅) then None else Some (size (A ∩ B)).

Lemma shared_weight_comm (A B : gset Z) : shared_weight A B = shared_weight B A.
Proof. unfold shared_weight. rewrite (comm_L (∩) A B). reflexivity. Qed.

(** The first weight if there is one, else the second. *)
Definition or_else (o1 o2 : option nat) : option nat :=
  match o1 with
  | Some w => Some w
  | None => o2
  end.

Section Linking.
Variable cp : gmap string (gset Z).

Definition pair_weight (x y : string) : option nat :=
  shared_weight (cp !!! x) (cp !!! y).

Lemma link_with_weight (a : string) (rest : list string) (G : Graph) (x y : string) :
  a ∉ rest ->
  edge_weight (link_with cp a rest G) x y =
    or_else (if bool_decide ((x = a /\ y ∈ rest) \/ (y = a /\ x ∈ rest))
             then pair_weight x y else None) (edge_weight G x y).
Proof.
  revert G. induction rest as [|b rest IH]; intros G Ha.
  - cbn. rewrite bool_decide_eq_false_2; [reflexivity|].
    intros [[_ H]|[_ H]]; inversion H.
  - apply not_elem_of_cons in Ha as [Hab Ha]. cbn [link_with].
    rewrite IH by exact Ha.
    assert (Hstep : edge_weight
              (if decide ((cp !!! a) ∩ (cp !!! b) = ∅) then G
               else add_edge a b (size ((cp !!! a) ∩ (cp !!! b))) G) x y =
            or_else (if bool_decide ((x = a /\ y = b) \/ (x = b /\ y = a))
                     then pair_weight x y else None) (edge_weight G x y)).
    { destruct (decide ((x = a /\ y = b) \/ (x = b /\ y = a))) as [H|H].
      - rewrite (bool_decide_eq_true_2 _ H).
        assert (Hw : pair_weight x y = shared_weight (cp !!! a) (cp !!! b)).
        { destruct H as [[-> ->]|[-> ->]]; [reflexivity | apply shared_weight_comm]. }
        rewrite Hw. unfold shared_weight.
        destruct (decide ((cp !!! a) ∩ (cp !!! b) = ∅)); [reflexivity|].
        rewrite edge_weight_add_edge, (bool_decide_eq_true_2 _ H) by exact Hab.
        reflexivity.
      - rewrite (bool_decide_eq_false_2 _ H).
        destruct (decide ((cp !!! a) ∩ (cp !!! b) = ∅)); [reflexivity|].
        rewrite edge_weight_add_edge, (bool_decide_eq_false_2 _ H) by exact Hab.
        reflexivity. }
    rewrite Hstep.
    destruct (decide ((x = a /\ y = b) \/ (x = b /\ y = a))) as [H|H].
    + rewrite (bool_decide_eq_true_2 _ H).
      rewrite (bool_decide_eq_true_2 ((x = a /\ y ∈ b :: rest) \/ _))
        by (destruct H as [[-> ->]|[-> ->]]; [left|right]; split; auto; left).
      destruct (bool_decide _); destruct (pair_weight x y); reflexivity.
    + rewrite (bool_decide_eq_false_2 _ H).
      assert (Hiff : ((x = a /\ y ∈ rest) \/ (y = a /\ x ∈ rest)) <->
                     ((x = a /\ y ∈ b :: rest) \/ (y = a /\ x ∈ b :: rest))).
      { rewrite !elem_of_cons. split.
        - intros [[? ?]|[? ?]]; auto.
        - intros [[? [?|?]]|[? [?|?]]]; auto; exfalso; apply H; subst; auto. }
      rewrite (bool_decide_ext _ _ Hiff).
      destruct (bool_decide _); destruct (pair_weight x y); reflexivity.
Qed.

Lemma link_all_weight (l : list string) (G : Graph) (x y : string) :
  NoDup l ->
  edge_weight (link_all cp l G) x y =
    or_else (if bool_decide (x <> y /\ x ∈ l /\ y ∈ l) then pair_weight x y else None)
      (edge_weight G x y).
Proof.
  revert G. induction l as [|a l IH]; intros G Hl.
  - cbn. rewrite bool_decide_eq_false_2; [reflexivity|].
    intros (_ & H & _); inversion H.
  - apply NoDup_cons in Hl as [Ha Hl]. cbn [link_all].
    rewrite IH, link_with_weight by assumption.
    destruct (decide (x <> y /\ x ∈ l /\ y ∈ l)) as [H1|H1];
      destruct (decide ((x = a /\ y ∈ l) \/ (y = a /\ x ∈ l))) as [H2|H2].
    + exfalso. destruct H1 as (_ & ? & ?), H2 as [[-> _]|[-> _]]; contradiction.
    + rewrite (bool_decide_eq_true_2 _ H1), (bool_decide_eq_false_2 _ H2).
      rewrite bool_decide_eq_true_2
        by (destruct H1 as (? & ? & ?); rewrite !elem_of_cons; auto).
      destruct (pair_weight x y); reflexivity.
    + rewrite (bool_decide_eq_false_2 _ H1), (bool_decide_eq_true_2 _ H2).
      rewrite bool_decide_eq_true_2.
      * destruct (pair_weight x y); reflexivity.
      * rewrite !elem_of_cons.
        destruct H2 as [[-> ?]|[-> ?]]; (split; [congruence|auto]).
    + rewrite (bool_decide_eq_false_2 _ H1), (bool_decide_eq_false_2 _ H2).
      rewrite bool_decide_eq_false_2; [reflexivity|].
      rewrite !elem_of_cons. intros (Hxy & [->|Hx] & [->|Hy]); auto.
Qed.

Lemma dom_link_with (a : string) (rest : list string) (G : Graph) :
  a ∈ dom G -> (forall b, b ∈ rest -> b ∈ dom G) ->
  dom (link_with cp a rest G) = dom G.
Proof.
  revert G. induction rest as [|b rest IH]; intros G Ha Hr; [reflexivity|].
  cbn [link_with].
  assert (Hb : b ∈ dom G) by (apply Hr; left).
  assert (Hd : dom (if decide ((cp !!! a) ∩ (cp !!! b) = ∅) then G
                    else add_edge a b (size ((cp !!! a) ∩ (cp !!! b))) G) = dom G).
  { destruct (decide _); [reflexivity|]. rewrite dom_add_edge. set_solver. }
  rewrite IH; rewrite Hd; auto.
  intros b' Hb'. apply Hr. right. exact Hb'.
Qed.

Lemma dom_link_all (l : list string) (G : Graph) :
  (forall a, a ∈ l -> a ∈ dom G) -> dom (link_all cp l G) = dom G.
Proof.
  revert G. induction l as [|a l IH]; intros G Hl; [reflexivity|].
  cbn [link_all].
  assert (Hd : dom (link_with cp a l G) = dom G).
  { apply dom_link_with; [apply Hl; left|]. intros b Hb. apply Hl. right. exact Hb. }
  rewrite IH; rewrite Hd; auto.
  intros b Hb. apply Hl. right. exact Hb.
Qed.

Lemma nodes_only (l : list string) (G : Graph) :
  dom (fold_left (fun G cust => add_node cust G) l G) = list_to_set l ∪ dom G /\
  forall x y, edge_weight (fold_left (fun G cust => add_node cust G) l G) x y =
              edge_weight G x y.
Proof.
  revert G. induction l as [|a l IH]; intros G; cbn.
  - split; [set_solver | reflexivity].
  - destruct (IH (add_node a G)) as [Hd He]. split.
    + rewrite Hd, dom_add_node. set_solver.
    + intros x y. rewrite He. apply edge_weight_add_node.
Qed.

(** The graph built from a dictionary and its list of keys. *)
Lemma build_graph_spec (l : list string) :
  NoDup l ->
  dom (build_graph cp l) = list_to_set l /\
  forall x y, edge_weight (build_graph cp l) x y =
    if bool_decide (x <> y /\ x ∈ l /\ y ∈ l) then pair_weight x y else None.
Proof.
  intros Hl. unfold build_graph.
  destruct (nodes_only l ∅) as [Hd He]. split.
  - rewrite dom_link_all; [rewrite Hd; set_solver|].
    intros a Ha. rewrite Hd. set_solver.
  - intros x y. rewrite link_all_weight, He by exact Hl.
    unfold edge_weight at 1. rewrite lookup_empty. cbn.
    destruct (bool_decide _); [destruct (pair_weight x y)|]; reflexivity.
Qed.

End Linking.

(** *** groupby and the dictionaries of the graph *)

Lemma insert_key_perm (x : string) (l : list string) :
  Permutation (insert_key x l) (x :: l).
Proof.
  induction l as [|y l IH]; cbn; [reflexivity|].
  destruct (String.leb x y); [reflexivity|].
  rewrite IH. apply perm_swap.
Qed.

Lemma group_keys_perm (names : list string) :
  Permutation (group_keys names) (remove_dups names).
Proof.
  unfold group_keys. induction (remove_dups names) as [|x l IH]; cbn; [reflexivity|].
  rewrite insert_key_perm, IH. reflexivity.
Qed.

Lemma NoDup_group_keys (names : list string) : NoDup (group_keys names).
Proof. rewrite group_keys_perm. apply NoDup_remove_dups. Qed.

Lemma elem_of_group_keys (names : list string) (n : string) :
  n ∈ group_keys names <-> n ∈ names.
Proof. rewrite group_keys_perm. apply elem_of_remove_dups. Qed.

Lemma order_to_customer_acc (l : list order_view) (m : gmap Z string) :
  (forall k, k ∉ map ov_id l ->
     fold_left (fun m o => <[ov_id o := ov_customer_name o]> m) l m !! k = m !! k) /\
  (NoDup (map ov_id l) -> forall ov, ov ∈ l ->
     fold_left (fun m o => <[ov_id o := ov_customer_name o]> m) l m !! ov_id ov =
       Some (ov_customer_name ov)).
Proof.
  revert m. induction l as [|o l IH]; intros m; cbn.
  - split; [reflexivity|]. intros _ ov H. inversion H.
  - destruct (IH (<[ov_id o := ov_customer_name o]> m)) as [IH1 IH2]. split.
    + intros k Hk. apply not_elem_of_cons in Hk as [Hk1 Hk2].
      rewrite IH1, lookup_insert_ne by auto. reflexivity.
    + intros Hnd ov Hov. apply NoDup_cons in Hnd as [Hn Hnd].
      apply elem_of_cons in Hov as [->|Hov]; [|apply IH2; assumption].
      rewrite IH1, lookup_insert_eq by exact Hn. reflexivity.
Qed.

Lemma order_to_customer_lookup (l : list order_view) (ov : order_view) :
  NoDup (map ov_id l) -> ov ∈ l ->
  order_to_customer l !! ov_id ov = Some (ov_customer_name ov).
Proof. intros. apply order_to_customer_acc; assumption. Qed.

Lemma cust_products_acc (otc : gmap Z string) (items : list item_record)
    (m : gmap string (gset Z)) (n : string) (pid : Z) :
  pid ∈ fold_left (fun m it =>
           match item_customer otc it with
           | Some n => <[n := {[ij_product_id (it_dict it)]} ∪ m !!! n]> m
           | None => m
           end) items m !!! n <->
  pid ∈ m !!! n \/
  exists it, it ∈ items /\ item_customer otc it = Some n /\
             ij_product_id (it_dict it) = pid.
Proof.
  revert m. induction items as [|it items IH]; intros m; cbn [fold_left].
  - split; [auto|]. intros [H|(it & H & _)]; [exact H | inversion H].
  - rewrite IH. split.
    + intros [H|(it' & H1 & H2 & H3)].
      * destruct (item_customer otc it) as [n'|] eqn:E; [|auto].
        destruct (decide (n' = n)) as [->|Hne].
        -- rewrite lookup_total_insert_eq in H.
           apply elem_of_union in H as [H|H]; [|auto].
           apply elem_of_singleton in H. right. exists it.
           split; [left|]. auto.
        -- rewrite lookup_total_insert_ne in H by exact Hne. auto.
      * right. exists it'. split; [right; exact H1 | auto].
    + intros [H|(it' & H1 & H2 & H3)].
      * left. destruct (item_customer otc it) as [n'|]; [|exact H].
        destruct (decide (n' = n)) as [->|Hne].
        -- rewrite lookup_total_insert_eq. set_solver.
        -- rewrite lookup_total_insert_ne by exact Hne. exact H.
      * apply elem_of_cons in H1 as [->|H1].
        -- left. rewrite H2, lookup_total_insert_eq. set_solver.
        -- right. exists it'. auto.
Qed.

(** *** From the store to the dictionaries *)

(** The rows of [items_df]. *)
Definition items_df (s : store) : list item_record :=
  flat_map (fun o => map (fun it => mkItemRecord (OrderItem_to_dict it) (ov_id o))
                       (get_order_items s (ov_id o))) (list_orders s).

(** The products a customer name has bought: over all listed orders under
    that name, the product identifiers of their items. *)
Definition purchases (s : store) (n : string) : gset Z :=
  list_to_set
    (flat_map (fun ov =>
                 if String.eqb (ov_customer_name ov) n
                 then map product_id (get_order_items s (ov_id ov)) else [])
       (list_orders s)).

Lemma elem_of_purchases (s : store) (n : string) (pid : Z) :
  pid ∈ purchases s n <->
  exists ov oi, In ov (list_orders s) /\ ov_customer_name ov = n /\
                In oi (get_order_items s (ov_id ov)) /\ product_id oi = pid.
Proof.
  unfold purchases. rewrite elem_of_list_to_set, list_elem_of_In, in_flat_map. split.
  - intros (ov & Hov & H). destruct (String.eqb_spec (ov_customer_name ov) n); [|destruct H].
    apply in_map_iff in H as (oi & Hp & Hoi). eauto 8.
  - intros (ov & oi & Hov & Hn & Hoi & Hp). exists ov. split; [exact Hov|].
    rewrite (proj2 (String.eqb_eq _ _) Hn). apply in_map_iff. eauto.
Qed.

Lemma elem_of_items_df (s : store) (it : item_record) :
  it ∈ items_df s <->
  exists ov oi, In ov (list_orders s) /\ In oi (get_order_items s (ov_id ov)) /\
                it = mkItemRecord (OrderItem_to_dict oi) (ov_id ov).
Proof.
  unfold items_df. rewrite list_elem_of_In, in_flat_map. split.
  - intros (ov & Hov & H). apply in_map_iff in H as (oi & <- & Hoi). eauto.
  - intros (ov & oi & Hov & Hoi & ->). exists ov. split; [exact Hov|].
    apply in_map_iff. eauto.
Qed.

Lemma NoDup_list_orders (s : store) :
  NoDup (map or_id (orders s)) -> NoDup (map ov_id (list_orders s)).
Proof.
  intros H. unfold list_orders. rewrite order_by_perm.
  induction (orders s) as [|o l IH]; cbn; [constructor|].
  apply NoDup_cons in H as [Ho Hl]. specialize (IH Hl).
  destruct (find_by cr_id (or_customer_id o) (customers s)); cbn; [|exact IH].
  apply NoDup_cons. split; [|exact IH].
  intros Hin. apply Ho. apply list_elem_of_In, in_map_iff in Hin as (ov & E & Hov).
  apply list_elem_of_In, list_elem_of_omap in Hov as (o' & Ho' & Hf).
  destruct (find_by cr_id (or_customer_id o') (customers s)); [|discriminate].
  cbn in Hf. injection Hf as <-. cbn in E. rewrite <- E.
  apply list_elem_of_In, in_map, list_elem_of_In, Ho'.
Qed.

Lemma item_customer_name (s : store) (it : item_record) (n : string) :
  NoDup (map or_id (orders s)) -> it ∈ items_df s ->
  (item_customer (order_to_customer (list_orders s)) it = Some n <->
   exists ov, In ov (list_orders s) /\ ov_id ov = it_order_id it /\
              ov_customer_name ov = n).
Proof.
  intros Hnd Hit. apply elem_of_items_df in Hit as (ov & oi & Hov & Hoi & ->).
  unfold item_customer. cbn [it_order_id].
  rewrite (order_to_customer_lookup _ ov (NoDup_list_orders s Hnd))
    by (apply list_elem_of_In, Hov).
  split.
  - intros [= <-]. eauto.
  - intros (ov' & Hov' & Hid & <-). f_equal.
    pose proof (order_to_customer_lookup _ ov' (NoDup_list_orders s Hnd)
                  (proj2 (list_elem_of_In _ _) Hov')) as H'.
    rewrite Hid, (order_to_customer_lookup _ ov (NoDup_list_orders s Hnd)) in H'
      by (apply list_elem_of_In, Hov).
    congruence.
Qed.

(** The dictionary of the source holds, under each name, the purchases
    made under that name. *)
Lemma cust_products_purchases (s : store) (n : string) :
  NoDup (map or_id (orders s)) ->
  cust_products_of (order_to_customer (list_orders s)) (items_df s) !!! n =
    purchases s n.
Proof.
  intros Hnd. apply set_eq. intros pid.
  unfold cust_products_of. rewrite cust_products_acc, elem_of_purchases.
  rewrite lookup_total_empty. split.
  - intros [H|(it & Hit & Hn & Hp)]; [set_solver|].
    apply (item_customer_name s it n Hnd Hit) in Hn as (ov & Hov & Hid & Hname).
    apply elem_of_items_df in Hit as (ov' & oi & Hov' & Hoi & ->).
    cbn in Hid, Hp. exists ov, oi. rewrite Hid. auto.
  - intros (ov & oi & Hov & Hn & Hoi & Hp). right.
    exists (mkItemRecord (OrderItem_to_dict oi) (ov_id ov)).
    assert (Hit : mkItemRecord (OrderItem_to_dict oi) (ov_id ov) ∈ items_df s)
      by (apply elem_of_items_df; eauto).
    split; [exact Hit|]. split; [|exact Hp].
    apply (item_customer_name s _ n Hnd Hit). eauto.
Qed.

Lemma elem_of_cust_list (s : store) (n : string) :
  NoDup (map or_id (orders s)) ->
  n ∈ cust_list_of (order_to_customer (list_orders s)) (items_df s) <->
  exists ov, In ov (list_orders s) /\ ov_customer_name ov = n /\
             get_order_items s (ov_id ov) <> [].
Proof.
  intros Hnd. unfold cust_list_of. rewrite elem_of_group_keys, list_elem_of_omap. split.
  - intros (it & Hit & Hn).
    apply (item_customer_name s it n Hnd Hit) in Hn as (ov & Hov & Hid & Hname).
    apply elem_of_items_df in Hit as (ov' & oi & Hov' & Hoi & ->).
    cbn in Hid. exists ov. rewrite Hid. repeat split; auto.
    intros E. rewrite E in Hoi. destruct Hoi.
  - intros (ov & Hov & Hn & Hne).
    destruct (get_order_items s (ov_id ov)) as [|oi l] eqn:E; [contradiction|].
    assert (Hit : mkItemRecord (OrderItem_to_dict oi) (ov_id ov) ∈ items_df s).
    { apply elem_of_items_df. exists ov, oi. rewrite E. repeat split; auto. left. reflexivity. }
    exists (mkItemRecord (OrderItem_to_dict oi) (ov_id ov)). split; [exact Hit|].
    apply (item_customer_name s _ n Hnd Hit). eauto.
Qed.

(** *** The relationship graph of a store *)

Lemma customer_graph_inv (s : store) (G : Graph) :
  customer_relationship_graph s = Ok (Some G) ->
  G = build_graph
        (cust_products_of (order_to_customer (list_orders s)) (items_df s))
        (cust_list_of (order_to_customer (list_orders s)) (items_df s)).
Proof.
  unfold customer_relationship_graph, build_dataframes.
  destruct (list_customers s) as [cs|e]; [|discriminate].
  destruct (list_products s) as [ps|e]; [|discriminate].
  cbn. fold (items_df s).
  destruct (list_orders s) as [|ov l]; [discriminate|].
  destruct (items_df s) as [|it its]; [discriminate|].
  intros [= <-]. reflexivity.
Qed.

Lemma purchases_not_listed (s : store) (n : string) :
  NoDup (map or_id (orders s)) ->
  n ∉ cust_list_of (order_to_customer (list_orders s)) (items_df s) ->
  purchases s n = ∅.
Proof.
  intros Hnd Hn. apply set_eq. intros pid. rewrite elem_of_purchases.
  split; [|set_solver]. intros (ov & oi & Hov & Hname & Hoi & _).
  exfalso. apply Hn. apply (elem_of_cust_list s n Hnd). exists ov.
  repeat split; auto. intros E. rewrite E in Hoi. destruct Hoi.
Qed.

(** Customers A, B and C, who bought the products {1, 2}, {2, 3} and {4}. *)
Definition abc_store : store :=
  mkStore
    [mkCustomerRow 1 "A" "" ""; mkCustomerRow 2 "B" "" ""; mkCustomerRow 3 "C" "" ""]
    [mkProductRow 1 "p1" (1 # 1); mkProductRow 2 "p2" (1 # 1);
     mkProductRow 3 "p3" (1 # 1); mkProductRow 4 "p4" (1 # 1)]
    [mkOrderRow 1 1 0; mkOrderRow 2 2 0; mkOrderRow 3 3 0]
    [mkItemRow 1 1 1 (1 # 1) 1; mkItemRow 2 1 2 (1 # 1) 1; mkItemRow 3 2 2 (1 # 1) 1;
     mkItemRow 4 2 3 (1 # 1) 1; mkItemRow 5 3 4 (1 # 1) 1]
    3 4 3 5.

(** C4. In the relationship graph of a store (order identifiers being
    unique), any two distinct customer names are joined by an edge exactly
    when the sets of product identifiers bought under the two names
    intersect, and the weight of the edge is the size of the intersection.
    For A, B and C above the graph has the three nodes, the edge A-B of
    weight 1 stored under both ends, and nothing at C. *)
Theorem customer_graph_edges :
  (forall (s : store) (G : Graph),
     NoDup (map or_id (orders s)) ->
     customer_relationship_graph s = Ok (Some G) ->
     forall a b : string, a <> b ->
       edge_weight G a b =
         if decide (purchases s a ∩ purchases s b = ∅) then None
         else Some (size (purchases s a ∩ purchases s b))) /\
  (purchases abc_store "A" = {[1; 2]} /\
   purchases abc_store "B" = {[2; 3]} /\
   purchases abc_store "C" = {[4]} /\
   exists G, customer_relationship_graph abc_store = Ok (Some G) /\
     size G = 3%nat /\
     G !! "A" = Some {["B" := 1%nat]} /\
     G !! "B" = Some {["A" := 1%nat]} /\
     G !! "C" = Some ∅).
Proof.
  split.
  - intros s G Hnd HG a b Hab. apply customer_graph_inv in HG. subst G.
    destruct (build_graph_spec
                (cust_products_of (order_to_customer (list_orders s)) (items_df s))
                (cust_list_of (order_to_customer (list_orders s)) (items_df s))
                (NoDup_group_keys _)) as [_ Hw].
    rewrite Hw. unfold pair_weight. rewrite !cust_products_purchases by exact Hnd.
    fold (shared_weight (purchases s a) (purchases s b)).
    destruct (decide (a <> b /\
                a ∈ cust_list_of (order_to_customer (list_orders s)) (items_df s) /\
                b ∈ cust_list_of (order_to_customer (list_orders s)) (items_df s)))
      as [H|H].
    + rewrite (bool_decide_eq_true_2 _ H). reflexivity.
    + rewrite (bool_decide_eq_false_2 _ H). unfold shared_weight.
      destruct (decide (purchases s a ∩ purchases s b = ∅)) as [_|Hne]; [reflexivity|].
      exfalso. apply Hne.
      destruct (decide (a ∈ cust_list_of (order_to_customer (list_orders s)) (items_df s)))
        as [Ha|Ha].
      * destruct (decide (b ∈ cust_list_of (order_to_customer (list_orders s)) (items_df s)))
          as [Hb|Hb]; [tauto|].
        rewrite (purchases_not_listed s b Hnd Hb). set_solver.
      * rewrite (purchases_not_listed s a Hnd Ha). set_solver.
  - split; [vm_compute; reflexivity|]. split; [vm_compute; reflexivity|].
    split; [vm_compute; reflexivity|].
    eexists. split; [vm_compute; reflexivity|].
    repeat split; vm_compute; reflexivity.
Qed.

Definition abc_graph : Graph :=
  build_graph
    (cust_products_of (order_to_customer (list_orders abc_store)) (items_df abc_store))
    (cust_list_of (order_to_customer (list_orders abc_store)) (items_df abc_store)).

Lemma customer_graph_edges_witness :
  edge_weight abc_graph "A" "B" =
    (if decide (purchases abc_store "A" ∩ purchases abc_store "B" = ∅) then None
     else Some (size (purchases abc_store "A" ∩ purchases abc_store "B"))) /\
  edge_weight abc_graph "A" "C" =
    (if decide (purchases abc_store "A" ∩ purchases abc_store "C" = ∅) then None
     else Some (size (purchases abc_store "A" ∩ purchases abc_store "C"))).
Proof.
  assert (Hnd : NoDup (map or_id (orders abc_store)))
    by (repeat constructor; cbn; set_solver).
  assert (HG : customer_relationship_graph abc_store = Ok (Some abc_graph))
    by (vm_compute; reflexivity).
  split.
  - apply (proj1 customer_graph_edges abc_store abc_graph Hnd HG "A" "B"). discriminate.
  - apply (proj1 customer_graph_edges abc_store abc_graph Hnd HG "A" "C"). discriminate.
Defined.

(** *** The nodes of the graph *)

(** Alice has an order of one line, Bob an order with no line at all. *)
Definition bob_store : store :=
  working
    (exec (add_order (mkOrder None 2 (mkDatetime 1735776000 0) []))
       (exec (add_order (mkOrder None 1 (mkDatetime 1735689600 0)
                           [mkOrderItem None 1 "Keyboard" (50 # 1) 1]))
          (exec (add_customer (mkCustomer None "Bob" "" "")) (connect shop_store)))).

(** The claim C7 as stated fails: Bob appears in an order and is not a
    node of the graph. *)
Lemma customer_graph_misses_itemless_customer :
  exists G, customer_relationship_graph bob_store = Ok (Some G) /\
    In "Bob" (map ov_customer_name (list_orders bob_store)) /\
    G !! "Alice" = Some ∅ /\ G !! "Bob" = None.
Proof.
  eexists. split; [vm_compute; reflexivity|].
  split; [left; reflexivity|]. split; vm_compute; reflexivity.
Qed.

Lemma customer_graph_tables (s s' : store) :
  customers s = customers s' -> products s = products s' ->
  orders s = orders s' -> order_items s = order_items s' ->
  customer_relationship_graph s = customer_relationship_graph s'.
Proof.
  intros Hc Hp Ho Hi.
  unfold customer_relationship_graph, build_dataframes, list_customers, list_products,
    list_orders, get_order_items, items_of.
  rewrite Hc, Hp, Ho, Hi. reflexivity.
Qed.

(** C7, amended. When the graph is built (order identifiers being unique),
    its nodes are exactly the customer names under which some listed order
    has at least one item (with its product present); a customer whose
    orders have no items is not a node. The graph is a function of the four
    tables alone. *)
Theorem customer_graph_nodes (s : store) (G : Graph) :
  NoDup (map or_id (orders s)) ->
  customer_relationship_graph s = Ok (Some G) ->
  (forall n : string,
     n ∈ dom G <->
     exists ov, In ov (list_orders s) /\ ov_customer_name ov = n /\
                get_order_items s (ov_id ov) <> []) /\
  (forall s' : store,
     customers s' = customers s -> products s' = products s ->
     orders s' = orders s -> order_items s' = order_items s ->
     customer_relationship_graph s' = Ok (Some G)).
Proof.
  intros Hnd HG. split.
  - intros n. pose proof (customer_graph_inv s G HG) as ->.
    destruct (build_graph_spec
                (cust_products_of (order_to_customer (list_orders s)) (items_df s))
                (cust_list_of (order_to_customer (list_orders s)) (items_df s))
                (NoDup_group_keys _)) as [Hd _].
    rewrite Hd, elem_of_list_to_set. apply elem_of_cust_list. exact Hnd.
  - intros s' Hc Hp Ho Hi. rewrite <- HG. apply customer_graph_tables; assumption.
Qed.

Lemma customer_graph_nodes_witness :
  (forall n : string,
     n ∈ dom abc_graph <->
     exists ov, In ov (list_orders abc_store) /\ ov_customer_name ov = n /\
                get_order_items abc_store (ov_id ov) <> []) /\
  (forall s' : store,
     customers s' = customers abc_store -> products s' = products abc_store ->
     orders s' = orders abc_store -> order_items s' = order_items abc_store ->
     customer_relationship_graph s' = Ok (Some abc_graph)).
Proof.
  apply (customer_graph_nodes abc_store abc_graph).
  - repeat constructor; cbn; set_solver.
  - vm_compute. reflexivity.
Defined.

(** *** Customers of the same name *)



(** The rows of [list_orders] under one name. *)
Definition listed_under (s : store) (n : string) : list order_view :=
  List.filter (fun ov => String.eqb (ov_customer_name ov) n) (list_orders s).










Lemma count_by_name_spec (l : list order_view) :
  NoDup (map fst (count_by_name l)) /\
  forall n k, In (n, k) (count_by_name l) ->
    k = length (List.filter (fun o => String.eqb (ov_customer_name o) n) l).
Proof.
  unfold count_by_name. split.
  - rewrite map_map. cbn. rewrite map_id. apply NoDup_group_keys.
  - intros n k H. apply in_map_iff in H as (n' & [= -> <-] & _). reflexivity.
Qed.

Section RankingFacts.
Variable sort_values : list (string * nat) -> list (string * nat).
Hypothesis sort_values_perm : forall l, Permutation (sort_values l) l.

Lemma top_customers_inv (s : store) (ranking : list (string * nat)) :
  top_customers_by_orders sort_values s = Ok (Some ranking) ->
  ranking = take 5 (sort_values (count_by_name (list_orders s))).
Proof.
  unfold top_customers_by_orders, build_dataframes.
  destruct (list_customers s) as [cs|e]; [|discriminate].
  destruct (list_products s) as [ps|e]; [|discriminate].
  cbn. destruct (list_orders s) as [|ov l]; [discriminate|].
  intros [= <-]. reflexivity.
Qed.


End RankingFacts.

(** Two customers named Sam: the first orders a keyboard twice, the second
    a mouse once. *)
Definition twins_store : store :=
  working
    (exec (add_order (mkOrder None 1 (mkDatetime 1735862400 0)
                        [mkOrderItem None 1 "Keyboard" (50 # 1) 1]))
    (exec (add_order (mkOrder None 2 (mkDatetime 1735776000 0)
                        [mkOrderItem None 2 "Mouse" (20 # 1) 1]))
    (exec (add_order (mkOrder None 1 (mkDatetime 1735689600 0)
                        [mkOrderItem None 1 "Keyboard" (50 # 1) 2]))
    (exec (add_product (mkProduct None "Mouse" (20 # 1)))
    (exec (add_product (mkProduct None "Keyboard" (50 # 1)))
    (exec (add_customer (mkCustomer None "Sam" "" ""))
    (exec (add_customer (mkCustomer None "Sam" "" "")) (connect empty_store)))))))).

(** A sort of the counts in non-increasing order. *)
Definition by_count_desc (l : list (string * nat)) : list (string * nat) :=
  order_by (fun e => Z.of_nat e.2) true l.

Example twins_ranking :
  top_customers_by_orders by_count_desc twins_store = Ok (Some [("Sam", 3%nat)]).
Proof. vm_compute. reflexivity. Qed.

Example twins_graph :
  customer_relationship_graph twins_store = Ok (Some {["Sam" := ∅]}) /\
  purchases twins_store "Sam" = {[1; 2]}.
Proof. split; vm_compute; reflexivity. Qed.


End GraphFacts.

(* ===================================================================== *)
(** ** Export followed by import *)
(* ===================================================================== *)

Module RoundTrip.
Import Models Db StoreFacts.

(** *** Entities without their identifiers *)

Definition customer_fields (c : customer_json) : string * string * string :=
  (cj_name c, cj_email c, cj_phone c).


Definition find_customer_json (cs : list customer_json) (id : Z) : option customer_json :=
  List.find (fun c => match cj_id c with Some i => i =? id | None => false end) cs.

Definition find_product_json (ps : list product_json) (id : Z) : option product_json :=
  List.find (fun p => match pj_id p with Some i => i =? id | None => false end) ps.



(** *** Stores of validated entities *)

Definition valid_customer_row (r : customer_row) : Prop :=
  new_Customer (Some (cr_id r)) (cr_name r) (cr_email r) (cr_phone r) =
    Ok (mkCustomer (Some (cr_id r)) (cr_name r) (cr_email r) (cr_phone r)).

Definition valid_product_row (r : product_row) : Prop :=
  new_Product (Some (pr_id r)) (pr_title r) (pr_price r) =
    Ok (mkProduct (Some (pr_id r)) (pr_title r) (pr_price r)).

(** The invariants of the data model on a store: tables in rowid order with
    positive keys, customers and products as their constructors leave them,
    every item with its product and a quantity of at least one. *)
Record store_ok (s : store) : Prop := mkStoreOk {
  ok_customers : sorted_by cr_id (customers s);
  ok_customers_pos : Forall (fun r => 0 < cr_id r) (customers s);
  ok_products : sorted_by pr_id (products s);
  ok_products_pos : Forall (fun r => 0 < pr_id r) (products s);
  ok_orders : sorted_by or_id (orders s);
  ok_items : sorted_by ir_id (order_items s);
  ok_valid_customers : Forall valid_customer_row (customers s);
  ok_valid_products : Forall valid_product_row (products s);
  ok_item_product :
    Forall (fun r => is_Some (find_by pr_id (ir_product_id r) (products s))) (order_items s);
  ok_quantity : Forall (fun r => 1 <= ir_quantity r) (order_items s) }.

Definition cj_of_row (r : customer_row) : customer_json :=
  mkCustomerJson (Some (cr_id r)) (cr_name r) (cr_email r) (cr_phone r).

Definition pj_of_row (r : product_row) : product_json :=
  mkProductJson (Some (pr_id r)) (pr_title r) (pr_price r).

Definition oj_of_view (s : store) (ov : order_view) : order_json :=
  mkOrderJson (ov_id ov) (ov_customer_id ov) (ov_created_at ov) (ov_total ov)
    (map OrderItem_to_dict (get_order_items s (ov_id ov))).

(** *** Validation does not look at the identifier *)

Lemma new_Customer_any_id (id id' : option Z) (n e p : string) (c : Customer) :
  new_Customer id n e p = Ok c ->
  new_Customer id' n e p = Ok (mkCustomer id' (_name c) (_email c) (_phone c)).
Proof.
  unfold new_Customer.
  destruct (Person_post_init n) as [n'|]; [|discriminate]. cbn.
  destruct (if truthy e then set_email e else Ok e) as [e'|]; [|discriminate]. cbn.
  destruct (if truthy p then set_phone p else Ok p) as [p'|]; [|discriminate]. cbn.
  intros [= <-]. reflexivity.
Qed.

Lemma new_Product_any_id (id id' : option Z) (t : string) (v : Q) (p : Product) :
  new_Product id t v = Ok p ->
  new_Product id' t v = Ok (mkProduct id' (_title p) (_price p)).
Proof.
  unfold new_Product.
  destruct (if truthy t then set_title t else Ok t) as [t'|]; [|discriminate]. cbn.
  destruct (set_price v) as [v'|]; [|discriminate]. cbn.
  intros [= <-]. reflexivity.
Qed.

(** *** Lookups by key in keyed lists *)

Lemma sorted_by_NoDup {A : Type} (k : A -> Z) (l : list A) :
  sorted_by k l -> NoDup (map k l).
Proof.
  induction 1 as [|x l Hs IH Hx]; cbn; constructor; [|exact IH].
  rewrite list_elem_of_In, in_map_iff. intros (y & E & Hy).
  rewrite List.Forall_forall in Hx. specialize (Hx y Hy). lia.
Qed.

Lemma find_by_unique {A : Type} (k : A -> Z) (l : list A) (x : A) :
  NoDup (map k l) -> In x l -> find_by k (k x) l = Some x.
Proof.
  unfold find_by. induction l as [|y l IH]; [intros _ []|].
  cbn. intros Hnd Hx. apply NoDup_cons in Hnd as [Hy Hnd].
  destruct (Z.eqb_spec (k y) (k x)) as [E|E].
  - destruct Hx as [->|Hx]; [reflexivity|]. exfalso. apply Hy.
    rewrite E. apply list_elem_of_In, in_map, Hx.
  - destruct Hx as [->|Hx]; [congruence|]. apply IH; assumption.
Qed.

Lemma find_by_None {A : Type} (k : A -> Z) (id : Z) (l : list A) :
  find_by k id l = None <-> forall y, In y l -> k y <> id.
Proof.
  unfold find_by. split.
  - intros H y Hy E. apply (find_none _ _ H) in Hy. lia.
  - intros H. induction l as [|y l IH]; [reflexivity|]. cbn.
    destruct (Z.eqb_spec (k y) id) as [E|_].
    + exfalso. apply (H y); [left; reflexivity | exact E].
    + apply IH. intros z Hz. apply H. right. exact Hz.
Qed.

Lemma find_by_rev {A : Type} (k : A -> Z) (id : Z) (l : list A) :
  NoDup (map k l) -> find_by k id (rev l) = find_by k id l.
Proof.
  intros Hnd. destruct (find_by k id l) as [x|] eqn:E.
  - apply find_by_Some in E as [Hx <-]. apply find_by_unique.
    + rewrite map_rev, <- (Permutation_rev (map k l)). exact Hnd.
    + apply in_rev. rewrite rev_involutive. exact Hx.
  - rewrite find_by_None in *. intros y Hy. apply E. apply in_rev. exact Hy.
Qed.

Lemma find_customer_json_rows (l : list customer_row) (id : Z) :
  find_customer_json (map cj_of_row l) id = cj_of_row <$> find_by cr_id id l.
Proof.
  unfold find_customer_json, find_by. induction l as [|r l IH]; [reflexivity|].
  cbn. destruct (cr_id r =? id); [reflexivity | exact IH].
Qed.

Lemma find_product_json_rows (l : list product_row) (id : Z) :
  find_product_json (map pj_of_row l) id = pj_of_row <$> find_by pr_id id l.
Proof.
  unfold find_product_json, find_by. induction l as [|r l IH]; [reflexivity|].
  cbn. destruct (pr_id r =? id); [reflexivity | exact IH].
Qed.

(** *** The document exported from a store *)

Lemma build_map {A B : Type} (f : A -> result B) (g : A -> B) (l : list A) :
  Forall (fun r => f r = Ok (g r)) l -> build f l = Ok (map g l).
Proof.
  induction 1 as [|r l Hr _ IH]; cbn; [reflexivity|].
  rewrite Hr. cbn. rewrite IH. reflexivity.
Qed.

Definition exported (s : store) : document :=
  mkDocument (map cj_of_row (rev (customers s))) (map pj_of_row (rev (products s)))
    (map (oj_of_view s) (list_orders s)).

Lemma export_json_exported (s : store) :
  sorted_by cr_id (customers s) -> Forall valid_customer_row (customers s) ->
  sorted_by pr_id (products s) -> Forall valid_product_row (products s) ->
  export_json s = Ok (exported s).
Proof.
  intros Hcs Hcv Hps Hpv. unfold export_json, list_customers, list_products.
  rewrite (order_by_desc_sorted cr_id _ Hcs), (order_by_desc_sorted pr_id _ Hps).
  rewrite (build_map _ (fun r => mkCustomer (Some (cr_id r)) (cr_name r) (cr_email r)
                                  (cr_phone r))).
  2:{ apply List.Forall_forall. intros r Hr. apply in_rev in Hr.
      rewrite List.Forall_forall in Hcv. apply Hcv, Hr. }
  cbn.
  rewrite (build_map _ (fun r => mkProduct (Some (pr_id r)) (pr_title r) (pr_price r))).
  2:{ apply List.Forall_forall. intros r Hr. apply in_rev in Hr.
      rewrite List.Forall_forall in Hpv. apply Hpv, Hr. }
  cbn. unfold exported. rewrite !map_map. reflexivity.
Qed.

(** What [import_json] needs of a document. *)
Definition customer_json_ok (c : customer_json) : Prop :=
  exists i, cj_id c = Some i /\ i <> 0 /\
    new_Customer None (cj_name c) (cj_email c) (cj_phone c) =
      Ok (mkCustomer None (cj_name c) (cj_email c) (cj_phone c)).

Definition product_json_ok (p : product_json) : Prop :=
  exists i, pj_id p = Some i /\ i <> 0 /\
    new_Product None (pj_title p) (pj_price p) =
      Ok (mkProduct None (pj_title p) (pj_price p)).

Definition line_amount (it : item_json) : Q :=
  (ij_unit_price it * inject_Z (ij_quantity it))%Q.

Definition item_json_ok (ps : list product_json) (it : item_json) : Prop :=
  1 <= ij_quantity it /\
  ij_line_total it = round2 (line_amount it) /\
  exists p, find_product_json ps (ij_product_id it) = Some p /\
            pj_title p = ij_product_title it.

Definition order_json_ok (cs : list customer_json) (ps : list product_json)
    (o : order_json) : Prop :=
  is_Some (find_customer_json cs (oj_customer_id o)) /\
  oj_total o = IFNULL (SUM (map line_amount (oj_items o))) 0%Q /\
  Forall (item_json_ok ps) (oj_items o).

Record doc_ok (d : document) : Prop := mkDocOk {
  dk_customers : Forall customer_json_ok (doc_customers d);
  dk_customer_ids : NoDup (map cj_id (doc_customers d));
  dk_products : Forall product_json_ok (doc_products d);
  dk_product_ids : NoDup (map pj_id (doc_products d));
  dk_orders : Forall (order_json_ok (doc_customers d) (doc_products d)) (doc_orders d) }.

Lemma NoDup_Some_ids {A : Type} (k : A -> Z) (l : list A) :
  sorted_by k l -> NoDup (map (fun x => Some (k x)) l).
Proof.
  intros H. apply sorted_by_NoDup in H.
  rewrite <- (map_map k Some). apply (NoDup_fmap_2 Some). exact H.
Qed.

Lemma joined_items_ok (s : store) (rows : list item_row) :
  sorted_by pr_id (products s) ->
  Forall (fun r => is_Some (find_by pr_id (ir_product_id r) (products s))) rows ->
  Forall (fun r => 1 <= ir_quantity r) rows ->
  map line_amount (map OrderItem_to_dict (omap (joined_item s) rows)) =
    map (fun oi => ir_unit_price oi * inject_Z (ir_quantity oi))%Q rows /\
  Forall (item_json_ok (map pj_of_row (rev (products s))))
    (map OrderItem_to_dict (omap (joined_item s) rows)).
Proof.
  intros Hps Hp Hq. induction rows as [|r rows IH]; [split; constructor|].
  apply Forall_cons in Hp as [[p Hr] Hp]. apply Forall_cons in Hq as [Hqr Hq].
  destruct (IH Hp Hq) as [IH1 IH2].
  assert (Hj : joined_item s r =
                 Some (mkOrderItem (Some (ir_id r)) (ir_product_id r) (pr_title p)
                         (ir_unit_price r) (ir_quantity r)))
    by (unfold joined_item; rewrite Hr; reflexivity).
  cbn [omap list_omap]. rewrite Hj. cbn [map]. split.
  - rewrite IH1. reflexivity.
  - constructor; [|exact IH2]. split; [exact Hqr|]. split; [reflexivity|].
    exists (pj_of_row p). cbn. split; [|reflexivity].
    rewrite find_product_json_rows, find_by_rev, Hr by (apply sorted_by_NoDup, Hps).
    reflexivity.
Qed.

Lemma exported_doc_ok (s : store) : store_ok s -> doc_ok (exported s).
Proof.
  intros [Hcs Hcp Hps Hpp Hos His Hcv Hpv Hip Hq]. constructor; cbn.
  - apply List.Forall_forall. intros c Hc. apply in_map_iff in Hc as (r & <- & Hr).
    apply in_rev in Hr. rewrite List.Forall_forall in Hcp, Hcv.
    exists (cr_id r). split; [reflexivity|]. split; [specialize (Hcp r Hr); lia|].
    exact (new_Customer_any_id _ None _ _ _ _ (Hcv r Hr)).
  - rewrite map_map. cbn. rewrite <- (Permutation_rev (customers s)) .
    apply NoDup_Some_ids, Hcs.
  - apply List.Forall_forall. intros c Hc. apply in_map_iff in Hc as (r & <- & Hr).
    apply in_rev in Hr. rewrite List.Forall_forall in Hpp, Hpv.
    exists (pr_id r). split; [reflexivity|]. split; [specialize (Hpp r Hr); lia|].
    exact (new_Product_any_id _ None _ _ _ (Hpv r Hr)).
  - rewrite map_map. cbn. rewrite <- (Permutation_rev (products s)).
    apply NoDup_Some_ids, Hps.
  - apply List.Forall_forall. intros oj Hoj. apply in_map_iff in Hoj as (ov & <- & Hov).
    apply list_orders_inv in Hov as (o & c & Ho & Hc & ->).
    unfold order_json_ok, oj_of_view. cbn.
    assert (Hsub : forall r, In r (items_of s (or_id o)) -> In r (order_items s))
      by (intros r Hr; apply List.filter_In in Hr; tauto).
    destruct (joined_items_ok s (items_of s (or_id o)) Hps) as [E F].
    { rewrite List.Forall_forall in *. auto. }
    { rewrite List.Forall_forall in *. auto. }
    rewrite (get_order_items_sorted s _ His). split; [|split].
    + rewrite find_customer_json_rows, find_by_rev, Hc by (apply sorted_by_NoDup, Hcs).
      eauto.
    + rewrite E. reflexivity.
    + exact F.
Qed.

(** *** The customer and product loops of the import *)




(** *** The orders of a store, identifiers resolved *)


















(** *** The order loop of the import *)



Section OrdersLoop.
Variables (dC : list customer_json) (dP : list product_json).
Variables (cm pm : gmap Z Z).
Variables (C : list customer_row) (P : list product_row).
Hypothesis C_sorted : sorted_by cr_id C.
Hypothesis P_sorted : sorted_by pr_id P.







End OrdersLoop.

(** *** The round trip *)

Lemma find_customer_json_Some (cs : list customer_json) (id : Z) (cj : customer_json) :
  find_customer_json cs id = Some cj -> In cj cs /\ cj_id cj = Some id.
Proof.
  unfold find_customer_json. intros H. apply find_some in H as [H1 H2].
  split; [exact H1|]. destruct (cj_id cj) as [i|]; [|discriminate].
  apply Z.eqb_eq in H2. congruence.
Qed.

Lemma find_product_json_Some (ps : list product_json) (id : Z) (pj : product_json) :
  find_product_json ps id = Some pj -> In pj ps /\ pj_id pj = Some id.
Proof.
  unfold find_product_json. intros H. apply find_some in H as [H1 H2].
  split; [exact H1|]. destruct (pj_id pj) as [i|]; [|discriminate].
  apply Z.eqb_eq in H2. congruence.
Qed.




(** A store filled through the API with constructed entities: two
    customers, two products, two orders of three lines in all. *)
Definition fill_sample : DbM unit :=
  alice ← lift (new_Customer None " Alice " "alice@example.com" "+371 12345678");
  a ← add_customer alice;
  bob ← lift (new_Customer None "Bob" "" "");
  b ← add_customer bob;
  keyboard ← lift (new_Product None "Keyboard" (50 # 1));
  k ← add_product keyboard;
  mouse ← lift (new_Product None "Mouse" (2050 # 100));
  m ← add_product mouse;
  o1 ← lift (add_item (mkOrder None a (mkDatetime 1735689600 250000) [])
               (mkOrderItem None k (_title keyboard) (_price keyboard) 1));
  o1 ← lift (add_item o1 (mkOrderItem None m (_title mouse) (_price mouse) 2));
  _ ← add_order o1;
  o2 ← lift (add_item (mkOrder None b (mkDatetime 1735776000 0) [])
               (mkOrderItem None m (_title mouse) (_price mouse) 3));
  _ ← add_order o2;
  mret tt.

Definition sample_store : store :=
  Eval vm_compute in working (exec fill_sample (connect empty_store)).

Example sample_store_filled :
  (fill_sample (connect empty_store)).1 = Ok tt /\
  working (exec fill_sample (connect empty_store)) = sample_store.
Proof. split; vm_compute; reflexivity. Qed.

Lemma sample_store_ok : store_ok sample_store.
Proof.
  constructor; unfold sorted_by;
    repeat (constructor; try (vm_compute; reflexivity));
    try (eexists; vm_compute; reflexivity);
    try (vm_compute; discriminate).
Qed.

Example sample_round_trip :
  exists d d',
    export_json sample_store = Ok d /\
    export_json (working (exec (import_json d false) (connect empty_store))) = Ok d' /\
    map customer_fields (doc_customers d') = rev (map customer_fields (doc_customers d)) /\
    map oj_total (doc_orders d') = rev (map oj_total (doc_orders d)).
Proof.
  eexists. eexists. split; [vm_compute; reflexivity|].
  split; [vm_compute; reflexivity|]. split; vm_compute; reflexivity.
Qed.


(** *** Stores filled through the API satisfy the invariants *)

Lemma Person_post_init_again (n n' : string) :
  Person_post_init n = Ok n' -> Person_post_init n' = Ok n'.
Proof.
  unfold Person_post_init. destruct (truthy n) eqn:Hn.
  - unfold set_name. destruct (truthy (strip n)) eqn:T; [|discriminate].
    cbn. intros [= <-]. rewrite T, strip_idem, T. reflexivity.
  - intros [= <-]. rewrite Hn. reflexivity.
Qed.

Lemma guarded_setter_again (re : regex) (msg e e' : string) :
  (if truthy e
   then (if truthy (strip e) && negb (match_to_dollar re (strip e))
         then Raise (ValidationError msg) else Ok (strip e))
   else Ok e) = Ok e' ->
  (if truthy e'
   then (if truthy (strip e') && negb (match_to_dollar re (strip e'))
         then Raise (ValidationError msg) else Ok (strip e'))
   else Ok e') = Ok e'.
Proof.
  destruct (truthy e) eqn:He.
  - destruct (truthy (strip e) && negb (match_to_dollar re (strip e))) eqn:T;
      [discriminate|].
    intros [= <-]. rewrite strip_idem, T. destruct (truthy (strip e)); reflexivity.
  - intros [= <-]. rewrite He. reflexivity.
Qed.

(** A constructed customer is a fixed point of its own validation. *)
Lemma new_Customer_again (id id' : option Z) (n e p : string) (c : Customer) :
  new_Customer id n e p = Ok c ->
  new_Customer id' (_name c) (_email c) (_phone c) =
    Ok (mkCustomer id' (_name c) (_email c) (_phone c)).
Proof.
  unfold new_Customer.
  destruct (Person_post_init n) as [n'|] eqn:En; [|discriminate]. cbn.
  destruct (if truthy e then set_email e else Ok e) as [e'|] eqn:Ee; [|discriminate]. cbn.
  destruct (if truthy p then set_phone p else Ok p) as [p'|] eqn:Ep; [|discriminate]. cbn.
  intros [= <-]. cbn.
  rewrite (Person_post_init_again _ _ En). cbn.
  unfold set_email in *. rewrite (guarded_setter_again _ _ _ _ Ee). cbn.
  unfold set_phone in *. rewrite (guarded_setter_again _ _ _ _ Ep). reflexivity.
Qed.









Lemma insert_items_found (order : Z) (its : list OrderItem) (c c' : connection) :
  for_each its (fun it =>
      _ ← insert_item order (product_id it) (unit_price it) (quantity it); mret tt) c =
    (Ok tt, c') ->
  Forall (fun it => is_Some (find_by pr_id (product_id it) (products (working c)))) its.
Proof.
  revert c. induction its as [|it its IH]; intros c; [constructor|].
  cbn [for_each]. rewrite bind_run, bind_run. unfold insert_item at 1.
  destruct (find_by or_id order (orders (working c))); [|discriminate].
  destruct (find_by pr_id (product_id it) (products (working c))) eqn:E; [|discriminate].
  cbn [mret DbM_ret]. intros H. apply IH in H. cbn in H.
  constructor; [rewrite E; eauto | exact H].
Qed.

(** An order whose lines went through [add_item], once stored. *)
Lemma store_ok_add_order (s : store) (o : Order) (k : Z) (c' : connection) :
  store_ok s -> Forall (fun it => 1 <= quantity it) (items o) ->
  add_order o (connect s) = (Ok k, c') ->
  store_ok (working c').
Proof.
  intros [Hcs Hcp Hps Hpp Hos His Hcv Hpv Hip Hq] Hqty Hrun.
  assert (Hfound : Forall (fun it => is_Some (find_by pr_id (product_id it) (products s)))
                     (items o)).
  { revert Hrun. unfold add_order. rewrite bind_run. unfold insert_order at 1. cbn.
    destruct (find_by cr_id (customer_id o) (customers s)); [|discriminate].
    rewrite bind_run.
    match goal with
    | |- context [for_each ?l ?f ?c0] => destruct (for_each l f c0) as [[[]|e] c1] eqn:E
    end; [|discriminate].
    intros _. apply insert_items_found in E. exact E. }
  apply add_order_inv in Hrun as [-> ->]. cbn [working connect].
  match goal with |- store_ok (store_items ?k ?its ?s0) =>
    destruct (store_items_frame k its s0) as (Fc & Fp & Fo);
    destruct (store_items_rows k its s0) as (rows & Er & F2 & Hsorted)
  end.
  cbn [customers products orders order_items with_order] in *.
  constructor; rewrite ?Fc, ?Fp, ?Fo, ?Er; try assumption.
  - apply (sorted_by_next or_id _ (seq_orders s)); [exact Hos | reflexivity].
  - apply Hsorted, His.
  - apply Forall_app. split; [exact Hip|].
    clear -F2 Hfound. induction F2 as [|it r its rows (_ & Hp & _) _ IH]; [constructor|].
    apply Forall_cons in Hfound as [Hit Hfound].
    constructor; [rewrite Hp; exact Hit | apply IH, Hfound].
  - apply Forall_app. split; [exact Hq|].
    clear -F2 Hqty. induction F2 as [|it r its rows (_ & _ & _ & Hr) _ IH]; [constructor|].
    apply Forall_cons in Hqty as [Hit Hqty].
    constructor; [rewrite Hr; exact Hit | apply IH, Hqty].
Qed.

(** An item of quantity 0 can only be stored by going around [add_item];
    the import, which goes through it, refuses the exported document. *)
Example import_refuses_quantity_zero :
  (import_json
     (mkDocument [] [mkProductJson (Some 1) "Keyboard" (5000 # 100)]
        [mkOrderJson 1 1 1735689600 0
           [mkItemJson (Some 1) 1 "Keyboard" (5000 # 100) 0 (0 # 100)]])
     false (connect shop_store)).1 =
  Raise (ValidationError "quantity must be >= 1").
Proof. vm_compute. reflexivity. Qed.

End RoundTrip.

(* ===================================================================== *)
(** ** More on sorting_utils.py *)
(* ===================================================================== *)

Module SortingMore.
Import SortingUtils.

Section Uniqueness.
Context {T K : Type}.
Variable le : K -> K -> bool.
Variable key : T -> K.
Variable reverse : bool.
Hypothesis le_total : forall a b, le a b = true \/ le b a = true.
Hypothesis le_trans : forall a b c, le a b = true -> le b c = true -> le a c = true.

Notation in_order := (in_order le key reverse).
Notation same_key := (same_key le key).
Notation merge_sort := (merge_sort le key reverse).

Lemma same_key_refl (x : T) : same_key (key x) x = true.
Proof. unfold SortingUtils.same_key. destruct (le_total (key x) (key x)) as [H|H]; rewrite H; reflexivity. Qed.

Lemma in_order_both (x y : T) : in_order x y -> in_order y x -> same_key (key x) y = true.
Proof.
  unfold SortingUtils.in_order, SortingUtils.same_key.
  destruct reverse; intros H1 H2; rewrite H1, H2; reflexivity.
Qed.

Lemma filter_In_same (k : K) (x : T) (l : list T) :
  In x (List.filter (same_key k) l) <-> In x l /\ same_key k x = true.
Proof. apply List.filter_In. Qed.

(** Two arrangements in key order that list every key class in the same
    order are the same list. *)
Lemma sorted_stable_unique (l1 : list T) :
  forall l2 : list T,
    StronglySorted in_order l1 -> StronglySorted in_order l2 ->
    (forall k, List.filter (same_key k) l1 = List.filter (same_key k) l2) ->
    l1 = l2.
Proof.
  induction l1 as [|x l1 IH]; intros l2 S1 S2 F.
  - destruct l2 as [|y l2]; [reflexivity|].
    specialize (F (key y)). cbn in F. rewrite same_key_refl in F. discriminate.
  - destruct l2 as [|y l2].
    { specialize (F (key x)). cbn in F. rewrite same_key_refl in F. discriminate. }
    apply StronglySorted_inv in S1 as [S1 Hx]. apply StronglySorted_inv in S2 as [S2 Hy].
    rewrite List.Forall_forall in Hx, Hy.
    assert (Exy : x = y).
    { pose proof (F (key x)) as Fx. cbn in Fx. rewrite same_key_refl in Fx.
      destruct (same_key (key x) y) eqn:E; [congruence|].
      exfalso.
      assert (Hxin : In x l2).
      { apply (filter_In_same (key x)). rewrite <- Fx. left. reflexivity. }
      pose proof (F (key y)) as Fy. cbn in Fy. rewrite (same_key_refl y) in Fy.
      assert (Hyin : In y (x :: l1)).
      { assert (H : In y (List.filter (same_key (key y)) (x :: l1))).
        { cbn. rewrite Fy. left. reflexivity. }
        apply filter_In_same in H. tauto. }
      destruct Hyin as [->|Hyin]; [rewrite same_key_refl in E; discriminate|].
      rewrite (in_order_both x y (Hx y Hyin) (Hy x Hxin)) in E. discriminate. }
    subst y. f_equal. apply IH; [assumption..|].
    intros k. specialize (F k). cbn in F.
    destruct (same_key k x); [injection F; trivial | exact F].
Qed.

(** [merge_sort] rearranges its input into key order and keeps every key
    class in input order. *)
Lemma merge_sort_sorted_classes (data : list T) :
  Permutation (merge_sort data) data /\
  StronglySorted in_order (merge_sort data) /\
  forall k : K,
    List.filter (same_key k) (merge_sort data) = List.filter (same_key k) data.
Proof.
  funelim (merge_sort data).
  - split; [reflexivity|split; [|reflexivity]].
    destruct data as [|x [|y data]]; simpl in *; try lia; repeat constructor.
  - match goal with
    | IH1 : Permutation (merge_sort (take _ _)) _ /\ _,
      IH2 : Permutation (merge_sort (drop _ _)) _ /\ _ |- _ =>
        destruct IH1 as (P1 & S1 & F1); destruct IH2 as (P2 & S2 & F2)
    end.
    split; [|split].
    + rewrite _merge_perm, P1, P2, take_drop. reflexivity.
    + apply _merge_sorted; assumption.
    + intros k. rewrite _merge_stable by assumption.
      rewrite F1, F2, <- List.filter_app, take_drop. reflexivity.
Qed.

(** X1. The result of [merge_sort] is the only arrangement of the input
    that is in key order and keeps the input order inside every class of
    equal keys. *)
Theorem merge_sort_unique (data out : list T) :
  StronglySorted in_order out ->
  (forall k, List.filter (same_key k) out = List.filter (same_key k) data) ->
  out = merge_sort data.
Proof.
  intros S F.
  destruct (merge_sort_sorted_classes data) as (_ & S' & F').
  apply sorted_stable_unique; [exact S | exact S' |].
  intros k. rewrite F, F'. reflexivity.
Qed.

(** X2. A list that is already in key order is returned as it is; in
    particular sorting twice is sorting once. *)
Theorem merge_sort_sorted_id (data : list T) :
  (StronglySorted in_order data -> merge_sort data = data) /\
  merge_sort (merge_sort data) = merge_sort data.
Proof.
  assert (H : forall d, StronglySorted in_order d -> merge_sort d = d).
  { intros d S. destruct (merge_sort_sorted_classes d) as (_ & S' & F').
    apply sorted_stable_unique; assumption. }
  split; [apply H|]. apply H.
  apply merge_sort_sorted_classes.
Qed.

End Uniqueness.

Section Reversal.
Context {T K : Type}.
Variable le : K -> K -> bool.
Variable key : T -> K.
Hypothesis le_total : forall a b, le a b = true \/ le b a = true.
Hypothesis le_trans : forall a b c, le a b = true -> le b c = true -> le a c = true.

Lemma StronglySorted_rev (R : T -> T -> Prop) (l : list T) :
  StronglySorted R l -> StronglySorted (fun a b => R b a) (rev l).
Proof.
  induction 1 as [|x l S IH F]; cbn [rev]; [constructor|].
  rewrite List.Forall_forall in F.
  assert (G : forall m, StronglySorted (fun a b => R b a) m ->
                        (forall y, In y m -> R x y) ->
                        StronglySorted (fun a b => R b a) (m ++ [x])).
  { clear. induction 1 as [|y m S IH F]; cbn; intros H; [repeat constructor|].
    constructor.
    - apply IH. intros z Hz. apply H. right. exact Hz.
    - rewrite List.Forall_forall in *. intros z Hz.
      apply in_app_or in Hz as [Hz|[<-|[]]]; [apply F, Hz|apply H; left; reflexivity]. }
  apply G; [exact IH|]. intros y Hy. apply F, in_rev, Hy.
Qed.

Lemma filter_rev_short (f : T -> bool) (l : list T) :
  (length (List.filter f l) <= 1)%nat -> List.filter f (rev l) = List.filter f l.
Proof.
  intros H. assert (E : List.filter f (rev l) = rev (List.filter f l)).
  { clear H. induction l as [|x l IH]; [reflexivity|].
    cbn [rev List.filter]. rewrite List.filter_app, IH. cbn [List.filter].
    destruct (f x); [reflexivity|apply app_nil_r]. }
  rewrite E. destruct (List.filter f l) as [|a [|b m]]; cbn in *; try reflexivity; lia.
Qed.

(** X3. When no two elements of the input have equal keys, sorting in
    descending order gives the reverse of sorting in ascending order. *)
Theorem merge_sort_reverse_distinct (data : list T) :
  (forall k, (length (List.filter (same_key le key k) data) <= 1)%nat) ->
  merge_sort le key true data = rev (merge_sort le key false data).
Proof.
  intros Hd.
  destruct (merge_sort_sorted_classes le key true le_total le_trans data) as (_ & S1 & F1).
  destruct (merge_sort_sorted_classes le key false le_total le_trans data) as (_ & S2 & F2).
  apply (sorted_stable_unique le key true le_total); [exact S1| |].
  - apply StronglySorted_rev in S2. exact S2.
  - intros k. rewrite F1, filter_rev_short; [symmetry; apply F2|].
    rewrite F2. apply Hd.
Qed.
End Reversal.

Lemma merge_sort_unique_witness :
  [(3, 1); (3, 3); (2, 4); (1, 2); (1, 5)] = merge_sort Z.leb fst true sample_rows.
Proof.
  apply (merge_sort_unique Z.leb fst true).
  - intros a b. rewrite !Z.leb_le. lia.
  - intros a b c. rewrite !Z.leb_le. lia.
  - unfold in_order. repeat constructor.
  - intros k. unfold same_key, sample_rows. cbn.
    destruct (Z.leb_spec 3 k), (Z.leb_spec k 3), (Z.leb_spec 2 k), (Z.leb_spec k 2),
      (Z.leb_spec 1 k), (Z.leb_spec k 1); try lia; reflexivity.
Defined.

Lemma merge_sort_sorted_id_witness :
  merge_sort Z.leb fst false [(1, 7); (1, 3); (2, 0)] = [(1, 7); (1, 3); (2, 0)] /\
  merge_sort Z.leb fst false (merge_sort Z.leb fst false [(1, 7); (1, 3); (2, 0)]) =
    merge_sort Z.leb fst false [(1, 7); (1, 3); (2, 0)].
Proof.
  destruct (merge_sort_sorted_id (T := Z * Z) Z.leb fst false)
    with (data := [(1, 7); (1, 3); (2, 0)]) as [H1 H2].
  - intros a b. rewrite !Z.leb_le. lia.
  - intros a b c. rewrite !Z.leb_le. lia.
  - split; [apply H1; unfold in_order; repeat constructor | exact H2].
Defined.

Lemma merge_sort_reverse_distinct_witness :
  merge_sort Z.leb fst true [(2, 1); (3, 2); (1, 3)] =
    rev (merge_sort Z.leb fst false [(2, 1); (3, 2); (1, 3)]).
Proof.
  apply (merge_sort_reverse_distinct Z.leb fst).
  - intros a b. rewrite !Z.leb_le. lia.
  - intros a b c. rewrite !Z.leb_le. lia.
  - intros k. unfold same_key. cbn.
    destruct (Z.leb_spec 3 k), (Z.leb_spec k 3), (Z.leb_spec 2 k), (Z.leb_spec k 2),
      (Z.leb_spec 1 k), (Z.leb_spec k 1); cbn; lia.
Defined.

End SortingMore.

(* ===================================================================== *)
(** ** gui.py: the order list *)
(* ===================================================================== *)

Module OrdersTab.
Import Models Db SortingUtils StoreFacts.

(** The entries of the sorting box; [OtherMode] stands for a text that is
    none of the four. *)
Inductive sort_mode : Type :=
| NewestFirst
| OldestFirst
| TotalDescending
| TotalAscending
| OtherMode.

(** [refresh_orders]: the rows of the order table, in the order in which
    they are inserted. The dates are compared as texts; all of them have
    the form that [isoformat(timespec="seconds")] gives, for which the
    order of the texts is the order of the seconds they name. *)
Definition refresh_orders (mode : sort_mode) (s : store) : list order_view :=
  let orders := list_orders s in
  match mode with
  | NewestFirst => merge_sort Z.leb ov_created_at true orders
  | OldestFirst => merge_sort Z.leb ov_created_at false orders
  | TotalDescending => merge_sort Qle_bool ov_total true orders
  | TotalAscending => merge_sort Qle_bool ov_total false orders
  | OtherMode => orders
  end.

(** The order of the rows that a mode asks for. *)
Definition mode_order (mode : sort_mode) (a b : order_view) : Prop :=
  match mode with
  | NewestFirst => ov_created_at b <= ov_created_at a
  | OldestFirst => ov_created_at a <= ov_created_at b
  | TotalDescending => (ov_total b <= ov_total a)%Q
  | TotalAscending => (ov_total a <= ov_total b)%Q
  | OtherMode => True
  end.

(** Two rows that the mode cannot tell apart. *)
Definition mode_tie (mode : sort_mode) (a b : order_view) : Prop :=
  match mode with
  | NewestFirst | OldestFirst => ov_created_at a = ov_created_at b
  | TotalDescending | TotalAscending => (ov_total a == ov_total b)%Q
  | OtherMode => True
  end.

Lemma StronglySorted_app_pair {A : Type} (R : A -> A -> Prop) (l1 l2 l3 : list A) (a b : A) :
  StronglySorted R (l1 ++ a :: l2 ++ b :: l3) -> R a b.
Proof.
  induction l1 as [|x l1 IH]; cbn; intros H.
  - apply StronglySorted_inv in H as [_ H]. rewrite List.Forall_forall in H.
    apply H. apply in_or_app. right. left. reflexivity.
  - apply StronglySorted_inv in H as [H _]. exact (IH H).
Qed.

Lemma StronglySorted_weaken {A : Type} (R R' : A -> A -> Prop) (l : list A) :
  (forall a b, R a b -> R' a b) -> StronglySorted R l -> StronglySorted R' l.
Proof.
  intros HR. induction 1 as [|x l S IH F]; constructor; [exact IH|].
  eapply List.Forall_impl; [|exact F]. intros y. apply HR.
Qed.

Lemma StronglySorted_snoc {A : Type} (R : A -> A -> Prop) (l : list A) (x : A) :
  StronglySorted R l -> (forall y, In y l -> R y x) -> StronglySorted R (l ++ [x]).
Proof.
  induction 1 as [|y l S IH F]; cbn; intros H.
  - repeat constructor.
  - constructor.
    + apply IH. intros z Hz. apply H. right. exact Hz.
    + rewrite List.Forall_forall in *. intros z Hz.
      apply in_app_or in Hz as [Hz|[<-|[]]]; [apply F, Hz|apply H; left; reflexivity].
Qed.

Lemma sorted_by_rev {A : Type} (k : A -> Z) (l : list A) :
  sorted_by k l -> StronglySorted (fun a b => k b < k a) (rev l).
Proof.
  induction 1 as [|x l S IH F]; cbn; [constructor|].
  apply StronglySorted_snoc; [exact IH|].
  rewrite List.Forall_forall in F. intros y Hy. apply F, in_rev, Hy.
Qed.

(** The rows of [list_orders] come with falling ids. *)
Lemma list_orders_descending (s : store) :
  sorted_by or_id (orders s) ->
  StronglySorted (fun a b => ov_id b < ov_id a) (list_orders s).
Proof.
  intros S. unfold list_orders.
  rewrite order_by_desc_sorted.
  - apply (sorted_by_rev ov_id).
    eapply (StronglySorted_omap or_id ov_id); [|exact S].
    intros o v E. destruct (find_by cr_id (or_customer_id o) (customers s)); [|discriminate].
    cbn in E. injection E as <-. reflexivity.
  - eapply (StronglySorted_omap or_id ov_id); [|exact S].
    intros o v E. destruct (find_by cr_id (or_customer_id o) (customers s)); [|discriminate].
    cbn in E. injection E as <-. reflexivity.
Qed.

Lemma StronglySorted_filter {A : Type} (R : A -> A -> Prop) (f : A -> bool) (l : list A) :
  StronglySorted R l -> StronglySorted R (List.filter f l).
Proof.
  induction 1 as [|x l S IH F]; cbn; [constructor|].
  destruct (f x); [|exact IH]. constructor; [exact IH|].
  rewrite List.Forall_forall in *. intros y Hy. apply List.filter_In in Hy as [Hy _].
  apply F, Hy.
Qed.

Section Sorted.
Context {K : Type}.
Variable le : K -> K -> bool.
Variable key : order_view -> K.
Variable reverse : bool.
Hypothesis le_total : forall a b, le a b = true \/ le b a = true.
Hypothesis le_trans : forall a b c, le a b = true -> le b c = true -> le a c = true.

(** Sorting the listed orders keeps rows of equal keys newest first. *)
Lemma sorted_orders_ties (s : store) (l1 l2 l3 : list order_view) (a b : order_view) :
  sorted_by or_id (orders s) ->
  merge_sort le key reverse (list_orders s) = l1 ++ a :: l2 ++ b :: l3 ->
  le (key a) (key b) = true -> le (key b) (key a) = true ->
  ov_id b < ov_id a.
Proof.
  intros S E Hab Hba.
  destruct (SortingMore.merge_sort_sorted_classes le key reverse le_total le_trans
              (list_orders s)) as (_ & _ & F).
  specialize (F (key a)). rewrite E in F.
  rewrite List.filter_app in F. cbn [List.filter] in F.
  rewrite List.filter_app in F. cbn [List.filter] in F.
  assert (Ha : same_key le key (key a) a = true)
    by apply (SortingMore.same_key_refl le key le_total).
  assert (Hb : same_key le key (key a) b = true).
  { unfold same_key. rewrite Hab, Hba. reflexivity. }
  rewrite Ha, Hb in F.
  pose proof (StronglySorted_filter _ (same_key le key (key a)) _
                (list_orders_descending s S)) as D.
  rewrite <- F in D. exact (StronglySorted_app_pair _ _ _ _ _ _ D).
Qed.
End Sorted.

Lemma Qle_bool_total (a b : Q) : Qle_bool a b = true \/ Qle_bool b a = true.
Proof.
  rewrite !Qle_bool_iff. destruct (Qlt_le_dec a b) as [H|H]; [left; apply Qlt_le_weak, H|right; exact H].
Qed.

Lemma Qle_bool_trans (a b c : Q) :
  Qle_bool a b = true -> Qle_bool b c = true -> Qle_bool a c = true.
Proof. rewrite !Qle_bool_iff. apply Qle_trans. Qed.

Lemma Zleb_total (a b : Z) : (a <=? b) = true \/ (b <=? a) = true.
Proof. rewrite !Z.leb_le. lia. Qed.

Lemma Zleb_trans (a b c : Z) : (a <=? b) = true -> (b <=? c) = true -> (a <=? c) = true.
Proof. rewrite !Z.leb_le. lia. Qed.

(** X4. Whatever the sorting mode, the order table shows exactly the
    listed orders, arranged as the mode asks, and rows that the mode
    cannot tell apart (same date, or same total) stay newest first, in the
    ascending modes too. *)
Theorem refresh_orders_ties_newest_first (mode : sort_mode) (s : store) :
  sorted_by or_id (orders s) ->
  Permutation (refresh_orders mode s) (list_orders s) /\
  StronglySorted (mode_order mode) (refresh_orders mode s) /\
  forall (l1 l2 l3 : list order_view) (a b : order_view),
    refresh_orders mode s = l1 ++ a :: l2 ++ b :: l3 ->
    mode_tie mode a b -> ov_id b < ov_id a.
Proof.
  intros S.
  pose proof (SortingMore.merge_sort_sorted_classes Z.leb ov_created_at true
                Zleb_total Zleb_trans (list_orders s)) as (P1 & S1 & _).
  pose proof (SortingMore.merge_sort_sorted_classes Z.leb ov_created_at false
                Zleb_total Zleb_trans (list_orders s)) as (P2 & S2 & _).
  pose proof (SortingMore.merge_sort_sorted_classes Qle_bool ov_total true
                Qle_bool_total Qle_bool_trans (list_orders s)) as (P3 & S3 & _).
  pose proof (SortingMore.merge_sort_sorted_classes Qle_bool ov_total false
                Qle_bool_total Qle_bool_trans (list_orders s)) as (P4 & S4 & _).
  destruct mode; cbn [refresh_orders mode_order mode_tie].
  - split; [exact P1|split].
    + eapply StronglySorted_weaken; [|exact S1].
      unfold in_order. intros a b H. apply Z.leb_le, H.
    + intros l1 l2 l3 a b E T.
      apply (sorted_orders_ties Z.leb ov_created_at true Zleb_total Zleb_trans s l1 l2 l3);
        [exact S|exact E|apply Z.leb_le; lia|apply Z.leb_le; lia].
  - split; [exact P2|split].
    + eapply StronglySorted_weaken; [|exact S2].
      unfold in_order. intros a b H. apply Z.leb_le, H.
    + intros l1 l2 l3 a b E T.
      apply (sorted_orders_ties Z.leb ov_created_at false Zleb_total Zleb_trans s l1 l2 l3);
        [exact S|exact E|apply Z.leb_le; lia|apply Z.leb_le; lia].
  - split; [exact P3|split].
    + eapply StronglySorted_weaken; [|exact S3].
      unfold in_order. intros a b H. apply Qle_bool_iff, H.
    + intros l1 l2 l3 a b E T.
      apply (sorted_orders_ties Qle_bool ov_total true Qle_bool_total Qle_bool_trans
               s l1 l2 l3); [exact S|exact E|..]; apply Qle_bool_iff; rewrite T; apply Qle_refl.
  - split; [exact P4|split].
    + eapply StronglySorted_weaken; [|exact S4].
      unfold in_order. intros a b H. apply Qle_bool_iff, H.
    + intros l1 l2 l3 a b E T.
      apply (sorted_orders_ties Qle_bool ov_total false Qle_bool_total Qle_bool_trans
               s l1 l2 l3); [exact S|exact E|..]; apply Qle_bool_iff; rewrite T; apply Qle_refl.
  - split; [reflexivity|split].
    + eapply StronglySorted_weaken; [|exact (list_orders_descending s S)]. intros; exact I.
    + intros l1 l2 l3 a b E _.
      pose proof (list_orders_descending s S) as D. rewrite E in D.
      exact (StronglySorted_app_pair _ _ _ _ _ _ D).
Qed.

Lemma refresh_orders_ties_newest_first_witness :
  Permutation (refresh_orders TotalAscending RoundTrip.sample_store)
    (list_orders RoundTrip.sample_store) /\
  StronglySorted (mode_order TotalAscending)
    (refresh_orders TotalAscending RoundTrip.sample_store) /\
  forall (l1 l2 l3 : list order_view) (a b : order_view),
    refresh_orders TotalAscending RoundTrip.sample_store = l1 ++ a :: l2 ++ b :: l3 ->
    mode_tie TotalAscending a b -> ov_id b < ov_id a.
Proof.
  apply refresh_orders_ties_newest_first.
  apply (RoundTrip.ok_orders _ RoundTrip.sample_store_ok).
Defined.

End OrdersTab.

From Stdlib Require Import Lqa.

(* ===================================================================== *)
(** ** models.py: what the validators accept *)
(* ===================================================================== *)

Module Patterns.
Import Models.

(** The strings a pattern denotes. *)
Inductive matches : regex -> string -> Prop :=
| MEps : matches Eps EmptyString
| MClass (p : ascii -> bool) (c : ascii) :
    p c = true -> matches (Class p) (String c EmptyString)
| MCat (r1 r2 : regex) (s1 s2 : string) :
    matches r1 s1 -> matches r2 s2 -> matches (Cat r1 r2) (s1 +:+ s2)
| MAltL (r1 r2 : regex) (s : string) : matches r1 s -> matches (Alt r1 r2) s
| MAltR (r1 r2 : regex) (s : string) : matches r2 s -> matches (Alt r1 r2) s
| MStar0 (r : regex) : matches (Star r) EmptyString
| MStarS (r : regex) (s1 s2 : string) :
    matches r s1 -> matches (Star r) s2 -> matches (Star r) (s1 +:+ s2).

Fixpoint all_chars (p : ascii -> bool) (s : string) : bool :=
  match s with
  | EmptyString => true
  | String c s' => p c && all_chars p s'
  end.

Lemma append_cons (c : ascii) (s1 s2 : string) :
  String c s1 +:+ s2 = String c (s1 +:+ s2).
Proof. reflexivity. Qed.

Lemma append_nil_l (s : string) : EmptyString +:+ s = s.
Proof. reflexivity. Qed.

Lemma append_empty (s1 s2 : string) :
  s1 +:+ s2 = EmptyString -> s1 = EmptyString /\ s2 = EmptyString.
Proof. destruct s1; rewrite ?append_cons, ?append_nil_l; [auto|discriminate]. Qed.

Lemma append_nil_r (s : string) : s +:+ EmptyString = s.
Proof. induction s as [|c s IH]; [reflexivity|rewrite append_cons, IH; reflexivity]. Qed.



Lemma nullable_matches (r : regex) : nullable r = true <-> matches r EmptyString.
Proof.
  split.
  - induction r as [| |p|r1 IH1 r2 IH2|r1 IH1 r2 IH2|r IH]; cbn; intros H;
      try discriminate.
    + constructor.
    + apply andb_prop in H as [H1 H2].
      change EmptyString with (EmptyString +:+ EmptyString). constructor; auto.
    + apply orb_prop in H as [H|H]; [apply MAltL|apply MAltR]; auto.
    + constructor.
  - intros H. remember EmptyString as s eqn:E.
    induction H as [|p c H|r1 r2 s1 s2 H1 IH1 H2 IH2|r1 r2 s H IH|r1 r2 s H IH|r
                   |r s1 s2 H1 IH1 H2 IH2]; cbn; try reflexivity; try discriminate.
    + apply append_empty in E as [-> ->]. rewrite IH1, IH2; reflexivity.
    + rewrite IH by exact E. reflexivity.
    + rewrite IH by exact E. apply orb_true_r.
Qed.

Lemma deriv_sound (c : ascii) (r : regex) :
  forall s, matches (deriv c r) s -> matches r (String c s).
Proof.
  induction r as [| |p|r1 IH1 r2 IH2|r1 IH1 r2 IH2|r IH]; cbn; intros s H.
  - inversion H.
  - inversion H.
  - destruct (p c) eqn:E; inversion H; subst. constructor. exact E.
  - assert (HC : forall s, matches (Cat (deriv c r1) r2) s -> matches (Cat r1 r2) (String c s)).
    { intros s0 H0. inversion H0; subst.
      change (String c (s1 +:+ s2)) with (String c s1 +:+ s2). constructor; auto. }
    destruct (nullable r1) eqn:E; [|apply HC, H].
    inversion H; subst; [apply HC; assumption|].
    change (String c s) with (EmptyString +:+ String c s).
    constructor; [apply nullable_matches, E|auto].
  - inversion H; subst; [apply MAltL|apply MAltR]; auto.
  - inversion H; subst.
    change (String c (s1 +:+ s2)) with (String c s1 +:+ s2). constructor; auto.
Qed.

Lemma deriv_complete (c : ascii) (r : regex) (w : string) :
  matches r w -> forall s, w = String c s -> matches (deriv c r) s.
Proof.
  induction 1 as [|p a H|r1 r2 s1 s2 H1 IH1 H2 IH2|r1 r2 s0 H IH|r1 r2 s0 H IH|r
                 |r s1 s2 H1 IH1 H2 IH2]; intros s E; cbn.
  - discriminate.
  - injection E as -> <-. rewrite H. constructor.
  - destruct s1 as [|a s1]; rewrite ?append_cons, ?append_nil_l in E.
    + apply nullable_matches in H1. rewrite H1. apply MAltR. apply IH2, E.
    + injection E as -> <-.
      destruct (nullable r1); [apply MAltL|]; constructor; auto.
  - apply MAltL. auto.
  - apply MAltR. auto.
  - discriminate.
  - destruct s1 as [|a s1]; rewrite ?append_cons, ?append_nil_l in E.
    + apply IH2 in E. exact E.
    + injection E as -> <-. constructor; auto.
Qed.

(** The matcher decides the language of the pattern. *)
Lemma fullmatch_matches (s : string) : forall r, fullmatch r s = true <-> matches r s.
Proof.
  induction s as [|c s IH]; intros r; cbn.
  - apply nullable_matches.
  - rewrite IH. split; [apply deriv_sound|]. intros H. eapply deriv_complete; eauto.
Qed.

Lemma matches_class_star (p : ascii -> bool) (s : string) :
  matches (Star (Class p)) s <-> all_chars p s = true.
Proof.
  split.
  - intros H. remember (Star (Class p)) as r eqn:E.
    induction H as [|q c H|r1 r2 s1 s2 H1 IH1 H2 IH2|r1 r2 s H IH|r1 r2 s H IH|r
                   |r s1 s2 H1 IH1 H2 IH2]; try discriminate; [reflexivity|].
    injection E as ->. inversion H1; subst. rewrite append_cons, append_nil_l. cbn.
    rewrite IH2 by reflexivity. rewrite H0. reflexivity.
  - induction s as [|c s IH]; cbn; intros H; [constructor|].
    apply andb_prop in H as [H1 H2].
    change (String c s) with (String c EmptyString +:+ s).
    constructor; [constructor; exact H1|auto].
Qed.

Lemma matches_class_plus (p : ascii -> bool) (s : string) :
  matches (Plus (Class p)) s <-> s <> EmptyString /\ all_chars p s = true.
Proof.
  unfold Plus. split.
  - intros H. inversion H; subst. inversion H2; subst.
    rewrite append_cons, append_nil_l. cbn.
    apply matches_class_star in H4. rewrite H1, H4. split; [discriminate|reflexivity].
  - intros [Hn H]. destruct s as [|c s]; [congruence|]. cbn in H.
    apply andb_prop in H as [H1 H2].
    change (String c s) with (String c EmptyString +:+ s).
    constructor; [constructor; exact H1|apply matches_class_star, H2].
Qed.

Lemma matches_class_at_least (p : ascii -> bool) (n : nat) :
  forall s, matches (AtLeast n (Class p)) s <->
            (n <= String.length s)%nat /\ all_chars p s = true.
Proof.
  induction n as [|n IH]; intros s; cbn [AtLeast].
  - rewrite matches_class_star. split; [intros H; split; [lia|exact H]|tauto].
  - split.
    + intros H. inversion H; subst. inversion H2; subst.
      apply IH in H4 as [Hl Ha]. rewrite append_cons, append_nil_l. cbn. rewrite H1, Ha. split; [lia|reflexivity].
    + intros [Hl Ha]. destruct s as [|c s]; cbn in Hl; [lia|].
      cbn in Ha. apply andb_prop in Ha as [H1 H2].
      change (String c s) with (String c EmptyString +:+ s).
      constructor; [constructor; exact H1|apply IH; split; [lia|exact H2]].
Qed.

Lemma is_char_eq (d c : ascii) : is_char d c = true <-> c = d.
Proof.
  unfold is_char, code. rewrite Nat.eqb_eq. split; [|intros ->; reflexivity].
  intros H. rewrite <- (ascii_nat_embedding c), <- (ascii_nat_embedding d), H. reflexivity.
Qed.

Lemma matches_char (d : ascii) (s : string) :
  matches (Class (is_char d)) s <-> s = String d EmptyString.
Proof.
  split.
  - intros H. inversion H; subst. apply is_char_eq in H1 as ->. reflexivity.
  - intros ->. constructor. apply is_char_eq. reflexivity.
Qed.

Definition newline : string := String "010" EmptyString.

Lemma drop_final_newline_cons (c a : ascii) (s : string) :
  drop_final_newline (String c (String a s)) =
    option_map (String c) (drop_final_newline (String a s)).
Proof. reflexivity. Qed.

Lemma drop_final_newline_Some (s s' : string) :
  drop_final_newline s = Some s' <-> s = s' +:+ newline.
Proof.
  split.
  - revert s'. induction s as [|c s IH]; intros s' H; [discriminate|].
    destruct s as [|a s].
    + cbn in H. destruct (is_char "010" c) eqn:E; [|discriminate].
      apply is_char_eq in E as ->. injection H as <-. reflexivity.
    + rewrite drop_final_newline_cons in H.
      destruct (drop_final_newline (String a s)) as [t|]; [|discriminate].
      injection H as <-. rewrite append_cons, <- (IH t); reflexivity.
  - intros ->. induction s' as [|b t IH]; [reflexivity|].
    rewrite append_cons.
    destruct t as [|x t]; [reflexivity|].
    rewrite append_cons in *. rewrite drop_final_newline_cons, IH. reflexivity.
Qed.

Lemma matches_cat (r1 r2 : regex) (s : string) :
  matches (Cat r1 r2) s <->
  exists s1 s2, s = s1 +:+ s2 /\ matches r1 s1 /\ matches r2 s2.
Proof.
  split.
  - intros H. inversion H; subst. eauto.
  - intros (s1 & s2 & -> & H1 & H2). constructor; assumption.
Qed.





(** [re.match] of a pattern that ends in [$]: the whole string matches, or
    the string without its final line feed does. *)
Lemma match_to_dollar_spec (r : regex) (s : string) :
  match_to_dollar r s = true <->
  matches r s \/ exists s', s = s' +:+ newline /\ matches r s'.
Proof.
  unfold match_to_dollar. rewrite orb_true_iff, fullmatch_matches.
  split; (intros [H|H]; [left; exact H|right]).
  - destruct (drop_final_newline s) as [s'|] eqn:E; [|discriminate].
    exists s'. split; [apply drop_final_newline_Some, E|apply fullmatch_matches, H].
  - destruct H as (s' & E & H). apply drop_final_newline_Some in E. rewrite E.
    apply fullmatch_matches, H.
Qed.

(** An address and its three parts. *)
Definition address (l d t : string) : string := l +:+ "@" +:+ d +:+ "." +:+ t.

Definition address_parts (l d t : string) : Prop :=
  l <> "" /\ all_chars email_local l = true /\
  d <> "" /\ all_chars email_domain d = true /\
  (2 <= String.length t)%nat /\ all_chars is_alpha t = true.

Lemma EMAIL_RE_matches (s : string) :
  matches EMAIL_RE s <-> exists l d t, s = address l d t /\ address_parts l d t.
Proof.
  unfold EMAIL_RE, address, address_parts. split.
  - intros H.
    apply matches_cat in H as (l & s1 & -> & Hl & H).
    apply matches_cat in H as (a & s2 & -> & Ha & H).
    apply matches_cat in H as (d & s3 & -> & Hd & H).
    apply matches_cat in H as (o & t & -> & Ho & Ht).
    apply matches_char in Ha as ->. apply matches_char in Ho as ->.
    apply matches_class_plus in Hl as [Hl1 Hl2].
    apply matches_class_plus in Hd as [Hd1 Hd2].
    apply matches_class_at_least in Ht as [Ht1 Ht2].
    exists l, d, t. auto 10.
  - intros (l & d & t & -> & Hl1 & Hl2 & Hd1 & Hd2 & Ht1 & Ht2).
    apply MCat; [apply matches_class_plus; auto|].
    apply MCat; [apply matches_char; reflexivity|].
    apply MCat; [apply matches_class_plus; auto|].
    apply MCat; [apply matches_char; reflexivity|].
    apply matches_class_at_least; auto.
Qed.

(** X5. [EMAIL_RE.match] accepts exactly the strings made of a non-empty
    local part, one [@], a non-empty domain, a dot and at least two
    letters, each part over its own alphabet, and the same strings followed
    by one line feed. *)
Theorem EMAIL_RE_accepts (s : string) :
  match_to_dollar EMAIL_RE s = true <->
  exists l d t : string,
    (s = l +:+ "@" +:+ d +:+ "." +:+ t \/
     s = (l +:+ "@" +:+ d +:+ "." +:+ t) +:+ newline) /\
    l <> "" /\ all_chars email_local l = true /\
    d <> "" /\ all_chars email_domain d = true /\
    (2 <= String.length t)%nat /\ all_chars is_alpha t = true.
Proof.
  rewrite match_to_dollar_spec. split.
  - intros [H|(s' & -> & H)]; apply EMAIL_RE_matches in H as (l & d & t & -> & P);
      exists l, d, t; (split; [|exact P]); [left|right]; reflexivity.
  - intros (l & d & t & [->| ->] & P); [left|right; eexists; split; [reflexivity|]];
      apply EMAIL_RE_matches; exists l, d, t; (split; [reflexivity|exact P]).
Qed.



End Patterns.

(* ===================================================================== *)
(** ** models.py: what the constructors accept and store *)
(* ===================================================================== *)

Module Validation.
Import Models Patterns.








End Validation.

Module Prices.
Import Models Patterns Validation.






End Prices.

(* ===================================================================== *)
(** ** db.py: what the calls keep *)
(* ===================================================================== *)

Module Invariants.
Import Models Db StoreFacts RoundTrip.

(** *** Properties of the store that every insertion keeps *)

Section Preservation.
Variable P : store -> Prop.

Hypothesis P_customer : forall s i n e p cu,
  new_Customer i n e p = Ok cu -> P s ->
  P (with_customer s (new_customer_row s (_name cu) (_email cu) (_phone cu))).
Hypothesis P_product : forall s i t v pr,
  new_Product i t v = Ok pr -> P s ->
  P (with_product s (new_product_row s (_title pr) (_price pr))).
Hypothesis P_order : forall s cid created,
  is_Some (find_by cr_id cid (customers s)) -> P s ->
  P (with_order s (new_order_row s cid created)).
Hypothesis P_item : forall s order it,
  1 <= quantity it ->
  is_Some (find_by or_id order (orders s)) ->
  is_Some (find_by pr_id (product_id it) (products s)) -> P s ->
  P (with_item s (new_item_row s order it)).

(** [P] goes from the working store of [c] to that of [c'], and what [c']
    has committed is what [c] had, or a store with [P]. *)
Definition kept (c c' : connection) : Prop :=
  P (working c) ->
  P (working c') /\ (committed c' = committed c \/ P (committed c')).

Definition keeps {A : Type} (m : DbM A) : Prop := forall c, kept c (m c).2.

Lemma kept_refl (c : connection) : kept c c.
Proof. intros H. auto. Qed.

Lemma kept_trans (c1 c2 c3 : connection) : kept c1 c2 -> kept c2 c3 -> kept c1 c3.
Proof.
  intros H12 H23 H1. destruct (H12 H1) as [H2 C2]. destruct (H23 H2) as [H3 C3].
  split; [exact H3|]. destruct C3 as [C3|C3]; [|right; exact C3].
  rewrite C3. exact C2.
Qed.

Lemma keeps_bind {A B : Type} (m : DbM A) (k : A -> DbM B) :
  keeps m -> (forall a, keeps (k a)) -> keeps (m ≫= k).
Proof.
  intros Hm Hk c. rewrite bind_run. specialize (Hm c).
  destruct (m c) as [[a|e] c1]; cbn in *; [|exact Hm].
  eapply kept_trans; [exact Hm|apply Hk].
Qed.

Lemma keeps_ret {A : Type} (a : A) : keeps (mret a).
Proof. intros c. apply kept_refl. Qed.

Lemma keeps_lift_bind {A B : Type} (r : result A) (k : A -> DbM B) :
  (forall a, r = Ok a -> keeps (k a)) -> keeps (lift r ≫= k).
Proof.
  intros Hk c. rewrite bind_run. unfold lift. destruct r as [a|e]; [|apply kept_refl].
  apply (Hk a eq_refl).
Qed.

Lemma keeps_commit : keeps commit.
Proof. intros c H. cbn. auto. Qed.

Lemma keeps_for_each {A : Type} (l : list A) (body : A -> DbM unit) :
  (forall x, In x l -> keeps (body x)) -> keeps (for_each l body).
Proof.
  induction l as [|x l IH]; intros H; cbn [for_each]; [apply keeps_ret|].
  apply keeps_bind; [apply H; left; reflexivity|].
  intros _. apply IH. intros y Hy. apply H. right. exact Hy.
Qed.

Lemma keeps_add_customer (i : option Z) (n e p : string) (cu : Customer) :
  new_Customer i n e p = Ok cu -> keeps (add_customer cu).
Proof.
  intros Hcu c H. rewrite add_customer_run. cbn.
  pose proof (P_customer _ _ _ _ _ _ Hcu H). auto.
Qed.

Lemma keeps_add_product (i : option Z) (t : string) (v : Q) (pr : Product) :
  new_Product i t v = Ok pr -> keeps (add_product pr).
Proof.
  intros Hpr c H. rewrite add_product_run. cbn.
  pose proof (P_product _ _ _ _ _ Hpr H). auto.
Qed.

Lemma keeps_insert_item (order : Z) (it : OrderItem) :
  1 <= quantity it ->
  keeps (insert_item order (product_id it) (unit_price it) (quantity it)).
Proof.
  intros Hq c H. unfold insert_item.
  destruct (find_by or_id order (orders (working c))) eqn:Eo; [|apply kept_refl, H].
  destruct (find_by pr_id (product_id it) (products (working c))) eqn:Ep;
    [|apply kept_refl, H].
  cbn. split; [|left; reflexivity].
  apply (P_item (working c) order it Hq); [rewrite Eo|rewrite Ep|]; eauto.
Qed.

Lemma keeps_insert_order (cid : Z) (created : isotext) : keeps (insert_order cid created).
Proof.
  intros c H. unfold insert_order.
  destruct (find_by cr_id cid (customers (working c))) eqn:Ec; [|apply kept_refl, H].
  cbn. split; [|left; reflexivity].
  apply (P_order (working c) cid created); [rewrite Ec; eauto|exact H].
Qed.

(** [add_order], whether it returns or raises. *)
Lemma keeps_add_order (o : Order) :
  Forall (fun it => 1 <= quantity it) (items o) -> keeps (add_order o).
Proof.
  intros Hq. unfold add_order.
  apply keeps_bind; [apply keeps_insert_order|]. intros k.
  apply keeps_bind.
  - apply keeps_for_each. intros it Hit.
    apply keeps_bind; [|intros _; apply keeps_ret].
    apply keeps_insert_item. rewrite List.Forall_forall in Hq. apply Hq, Hit.
  - intros _. apply keeps_bind; [apply keeps_commit|]. intros _. apply keeps_ret.
Qed.

Lemma keeps_import_customers (cs : list customer_json) :
  forall m, keeps (import_customers cs m).
Proof.
  induction cs as [|cj cs IH]; intros m; cbn [import_customers]; [apply keeps_ret|].
  apply keeps_lift_bind. intros cu Hcu.
  apply keeps_bind; [exact (keeps_add_customer _ _ _ _ _ Hcu)|].
  intros new_id. apply IH.
Qed.

Lemma keeps_import_products (ps : list product_json) :
  forall m, keeps (import_products ps m).
Proof.
  induction ps as [|pj ps IH]; intros m; cbn [import_products]; [apply keeps_ret|].
  apply keeps_lift_bind. intros pr Hpr.
  apply keeps_bind; [exact (keeps_add_product _ _ _ _ Hpr)|].
  intros new_id. apply IH.
Qed.

(** The lines that [add_item] lets through have a quantity of 1 or more. *)
Lemma import_items_quantities (pm : gmap Z Z) (its : list item_json) :
  forall o o', import_items pm its o = Ok o' ->
    Forall (fun it => 1 <= quantity it) (items o) ->
    Forall (fun it => 1 <= quantity it) (items o').
Proof.
  induction its as [|it its IH]; intros o o'; cbn [import_items].
  - intros [= <-]. auto.
  - unfold add_item at 1. cbn [quantity].
    destruct (ij_quantity it <? 1) eqn:E; [discriminate|].
    apply Z.ltb_ge in E. cbn. intros H Hq. apply (IH _ _ H). cbn.
    apply Forall_app. split; [exact Hq|]. repeat constructor. exact E.
Qed.

Lemma keeps_import_order (cm pm : gmap Z Z) (o : order_json) : keeps (import_order cm pm o).
Proof.
  unfold import_order. apply keeps_lift_bind. intros order Ho.
  apply keeps_bind; [|intros _; apply keeps_ret].
  apply keeps_add_order. apply (import_items_quantities _ _ _ _ Ho). constructor.
Qed.

(** [import_json] without [clear_first], whether it returns or raises. *)
Lemma keeps_import_json (d : document) : keeps (import_json d false).
Proof.
  unfold import_json.
  apply keeps_bind; [apply keeps_ret|]. intros _.
  apply keeps_bind; [apply keeps_import_customers|]. intros cm.
  apply keeps_bind; [apply keeps_import_products|]. intros pm.
  apply keeps_for_each. intros o _. apply keeps_import_order.
Qed.

End Preservation.

(** With [clear_first], the import is an import into the emptied, committed
    database. *)
Lemma import_json_clear_first (d : document) (c : connection) :
  import_json d true c = import_json d false (connect (cleared (working c))).
Proof.
  unfold import_json. rewrite !bind_run, _clear_all_run. reflexivity.
Qed.

(** *** The well-formedness of the store *)









(** *** Imports only add rows *)

Definition extends (s0 s : store) : Prop :=
  customers s0 `prefix_of` customers s /\
  products s0 `prefix_of` products s /\
  orders s0 `prefix_of` orders s /\
  order_items s0 `prefix_of` order_items s.

(** X11. Without [clear_first], [import_json] only appends: whatever the
    document and whether the call returns or raises, each table begins with
    the rows it had, and what is committed afterwards is what was committed
    before or also begins with those rows. *)
Theorem import_json_only_appends (d : document) (c : connection) :
  extends (working c) (working (import_json d false c).2) /\
  (committed (import_json d false c).2 = committed c \/
   extends (working c) (committed (import_json d false c).2)).
Proof.
  apply (keeps_import_json (extends (working c))).
  - intros s i n e p cu _ (H1 & H2 & H3 & H4). repeat split; cbn; try assumption.
    apply prefix_app_r, H1.
  - intros s i t v pr _ (H1 & H2 & H3 & H4). repeat split; cbn; try assumption.
    apply prefix_app_r, H2.
  - intros s cid created _ (H1 & H2 & H3 & H4). repeat split; cbn; try assumption.
    apply prefix_app_r, H3.
  - intros s order it _ _ _ (H1 & H2 & H3 & H4). repeat split; cbn; try assumption.
    apply prefix_app_r, H4.
  - repeat split; reflexivity.
Qed.

(** *** Imports that clear first *)

(** The AUTOINCREMENT counters are not below the ids in use. *)
Definition seq_covers (s : store) : Prop :=
  Forall (fun r => cr_id r <= seq_customers s) (customers s) /\
  Forall (fun r => pr_id r <= seq_products s) (products s) /\
  Forall (fun r => or_id r <= seq_orders s) (orders s) /\
  Forall (fun r => ir_id r <= seq_order_items s) (order_items s).

(** The rows of [s] were all inserted after [s0] was left. *)
Definition inserted_after (s0 s : store) : Prop :=
  (Forall (fun r => seq_customers s0 < cr_id r) (customers s) /\
   seq_customers s0 <= seq_customers s) /\
  (Forall (fun r => seq_products s0 < pr_id r) (products s) /\
   seq_products s0 <= seq_products s) /\
  (Forall (fun r => seq_orders s0 < or_id r) (orders s) /\
   seq_orders s0 <= seq_orders s) /\
  (Forall (fun r => seq_order_items s0 < ir_id r) (order_items s) /\
   seq_order_items s0 <= seq_order_items s).

Lemma next_id_above (seq : Z) (ids : list Z) : seq < next_id seq ids.
Proof. unfold next_id. lia. Qed.

Lemma inserted_after_import (s0 : store) (d : document) :
  let c' := (import_json d false (connect (cleared s0))).2 in
  inserted_after s0 (working c') /\ inserted_after s0 (committed c').
Proof.
  assert (H0 : inserted_after s0 (cleared s0)).
  { repeat split; cbn; try constructor; lia. }
  destruct (keeps_import_json (inserted_after s0)) with (d := d) (c := connect (cleared s0))
    as [Hw Hc].
  - intros s i n e p cu _ ((H1 & L1) & H2 & H3 & H4). repeat split; cbn; try tauto.
    + apply Forall_app. split; [exact H1|]. repeat constructor. cbn.
      pose proof (next_id_above (seq_customers s) (map cr_id (customers s))). lia.
    + pose proof (next_id_above (seq_customers s) (map cr_id (customers s))). lia.
  - intros s i t v pr _ (H1 & (H2 & L2) & H3 & H4). repeat split; cbn; try tauto.
    + apply Forall_app. split; [exact H2|]. repeat constructor. cbn.
      pose proof (next_id_above (seq_products s) (map pr_id (products s))). lia.
    + pose proof (next_id_above (seq_products s) (map pr_id (products s))). lia.
  - intros s cid created _ (H1 & H2 & (H3 & L3) & H4). repeat split; cbn; try tauto.
    + apply Forall_app. split; [exact H3|]. repeat constructor. cbn.
      pose proof (next_id_above (seq_orders s) (map or_id (orders s))). lia.
    + pose proof (next_id_above (seq_orders s) (map or_id (orders s))). lia.
  - intros s order it _ _ _ (H1 & H2 & H3 & (H4 & L4)). repeat split; cbn; try tauto.
    + apply Forall_app. split; [exact H4|]. repeat constructor. cbn.
      pose proof (next_id_above (seq_order_items s) (map ir_id (order_items s))). lia.
    + pose proof (next_id_above (seq_order_items s) (map ir_id (order_items s))). lia.
  - exact H0.
  - cbn. split; [exact Hw|]. destruct Hc as [Hc|Hc]; [|exact Hc].
    cbn in Hc. rewrite Hc. exact H0.
Qed.

(** X12. With [clear_first], [import_json] empties the four tables and
    commits that before it reads the first entry: whatever the document,
    and also when the call raises, every row found afterwards, in the
    working store and in what is committed, has an id above the ids of all
    rows the table had, so that no earlier row is left and no id is used
    a second time. *)
Theorem import_json_clear_first_replaces (d : document) (c : connection) (s' : store) :
  seq_covers (working c) ->
  s' = working (import_json d true c).2 \/ s' = committed (import_json d true c).2 ->
  (forall r r', In r (customers (working c)) -> In r' (customers s') -> cr_id r < cr_id r') /\
  (forall r r', In r (products (working c)) -> In r' (products s') -> pr_id r < pr_id r') /\
  (forall r r', In r (orders (working c)) -> In r' (orders s') -> or_id r < or_id r') /\
  (forall r r', In r (order_items (working c)) -> In r' (order_items s') ->
     ir_id r < ir_id r').
Proof.
  intros (C1 & C2 & C3 & C4) Hs'. rewrite import_json_clear_first in Hs'.
  destruct (inserted_after_import (working c) d) as [Hw Hc].
  assert (H : inserted_after (working c) s') by (destruct Hs' as [-> | ->]; assumption).
  destruct H as ((H1 & _) & (H2 & _) & (H3 & _) & (H4 & _)).
  rewrite List.Forall_forall in *.
  repeat split; intros r r' Hr Hr'.
  - specialize (C1 r Hr). specialize (H1 r' Hr'). cbn in *. lia.
  - specialize (C2 r Hr). specialize (H2 r' Hr'). cbn in *. lia.
  - specialize (C3 r Hr). specialize (H3 r' Hr'). cbn in *. lia.
  - specialize (C4 r Hr). specialize (H4 r' Hr'). cbn in *. lia.
Qed.

(** A document whose second customer has a malformed email. *)
Definition broken_document : document :=
  mkDocument
    [mkCustomerJson (Some 7) "Dana" "" ""; mkCustomerJson (Some 8) "Eve" "eve-at-home" ""]
    [] [].

Example import_broken_document :
  (import_json broken_document true (connect sample_store)).1 =
    Raise (ValidationError "invalid email") /\
  map cr_name (customers (committed (import_json broken_document true
                                        (connect sample_store)).2)) = ["Dana"] /\
  products (committed (import_json broken_document true (connect sample_store)).2) = [].
Proof. vm_compute. auto. Qed.

Lemma import_json_clear_first_replaces_witness :
  (forall r r', In r (customers sample_store) ->
     In r' (customers (committed (import_json broken_document true
                                    (connect sample_store)).2)) ->
     cr_id r < cr_id r') /\
  (forall r r', In r (products sample_store) ->
     In r' (products (committed (import_json broken_document true
                                   (connect sample_store)).2)) ->
     pr_id r < pr_id r') /\
  (forall r r', In r (orders sample_store) ->
     In r' (orders (committed (import_json broken_document true
                                 (connect sample_store)).2)) ->
     or_id r < or_id r') /\
  (forall r r', In r (order_items sample_store) ->
     In r' (order_items (committed (import_json broken_document true
                                      (connect sample_store)).2)) ->
     ir_id r < ir_id r').
Proof.
  apply (import_json_clear_first_replaces broken_document (connect sample_store)).
  - unfold seq_covers. vm_compute.
    repeat split; repeat (apply List.Forall_cons; [discriminate|]); apply List.Forall_nil.
  - right. reflexivity.
Defined.

End Invariants.

(* ===================================================================== *)
(** ** db.py: inserting and listing *)
(* ===================================================================== *)

Module Tables.
Import Models Db StoreFacts RoundTrip.

Lemma build_Forall2 {A B : Type} (f : A -> result B) (rows : list A) :
  forall l, build f rows = Ok l -> Forall2 (fun r x => f r = Ok x) rows l.
Proof.
  induction rows as [|r rows IH]; intros l; cbn [build].
  - intros [= <-]. constructor.
  - destruct (f r) as [x|e] eqn:E; [|discriminate]. cbn.
    destruct (build f rows) as [xs|e]; [|discriminate]. cbn.
    intros [= <-]. constructor; [exact E|apply IH; reflexivity].
Qed.

Lemma build_cons {A B : Type} (f : A -> result B) (r : A) (rows : list A) (x : B) (l : list B) :
  f r = Ok x -> build f rows = Ok l -> build f (r :: rows) = Ok (x :: l).
Proof. intros E1 E2. cbn [build]. rewrite E1. cbn. rewrite E2. reflexivity. Qed.

Lemma order_by_desc_snoc {A : Type} (k : A -> Z) (l : list A) (x : A) :
  sorted_by k l -> (forall y, In y l -> k y < k x) ->
  order_by k true (l ++ [x]) = x :: order_by k true l.
Proof.
  intros S H. rewrite (order_by_desc_sorted k (l ++ [x])).
  - rewrite rev_app_distr, (order_by_desc_sorted k l S). reflexivity.
  - apply sorted_by_snoc; assumption.
Qed.

(** X13. A customer that went through the constructor is stored under an
    id above those of all listed customers, the insertion is committed,
    and [list_customers] then returns it first, with the fields it had,
    followed by the customers listed before. *)
Theorem add_customer_listed_first (c : connection) (i : option Z) (n e p : string)
    (cu : Customer) (l : list Customer) :
  sorted_by cr_id (customers (working c)) ->
  new_Customer i n e p = Ok cu ->
  list_customers (working c) = Ok l ->
  exists id : Z,
    (add_customer cu c).1 = Ok id /\
    Forall (fun x => exists j, cust_id x = Some j /\ j < id) l /\
    list_customers (working (add_customer cu c).2) =
      Ok (mkCustomer (Some id) (_name cu) (_email cu) (_phone cu) :: l) /\
    committed (add_customer cu c).2 = working (add_customer cu c).2.
Proof.
  intros S Hcu Hl. rewrite add_customer_run. cbn [fst snd working committed connect].
  set (s := working c) in *.
  set (r := new_customer_row s (_name cu) (_email cu) (_phone cu)).
  assert (Hfresh : forall y, In y (customers s) -> cr_id y < cr_id r).
  { intros y Hy. apply next_id_fresh, in_map, Hy. }
  exists (cr_id r). split; [reflexivity|]. split; [|split; [|reflexivity]].
  - unfold list_customers in Hl. apply build_Forall2 in Hl.
    assert (Hin : forall y, In y (order_by cr_id true (customers s)) -> cr_id y < cr_id r).
    { intros y Hy. apply Hfresh. apply (order_by_In cr_id true). exact Hy. }
    induction Hl as [|y x rows l Hy _ IH]; constructor.
    + exists (cr_id y). split; [|apply Hin; left; reflexivity].
      pose proof (new_Customer_any_id _ (Some (cr_id y)) _ _ _ _ Hy) as K.
      rewrite Hy in K. injection K as ->. reflexivity.
    + apply IH. intros z Hz. apply Hin. right. exact Hz.
  - unfold list_customers in *. cbn [customers with_customer].
    rewrite (order_by_desc_snoc cr_id _ r S Hfresh).
    apply build_cons; [|exact Hl].
    exact (new_Customer_again _ _ _ _ _ _ Hcu).
Qed.

Lemma add_customer_listed_first_witness :
  exists id : Z,
    (add_customer (mkCustomer None "Carol" "" "") (connect sample_store)).1 = Ok id /\
    Forall (fun x => exists j, cust_id x = Some j /\ j < id)
      [mkCustomer (Some 2) "Bob" "" "";
       mkCustomer (Some 1) "Alice" "alice@example.com" "+371 12345678"] /\
    list_customers
      (working (add_customer (mkCustomer None "Carol" "" "") (connect sample_store)).2) =
      Ok [mkCustomer (Some id) "Carol" "" "";
          mkCustomer (Some 2) "Bob" "" "";
          mkCustomer (Some 1) "Alice" "alice@example.com" "+371 12345678"] /\
    committed (add_customer (mkCustomer None "Carol" "" "") (connect sample_store)).2 =
      working (add_customer (mkCustomer None "Carol" "" "") (connect sample_store)).2.
Proof.
  apply (add_customer_listed_first (connect sample_store) None "Carol " "" "").
  - apply (ok_customers _ sample_store_ok).
  - vm_compute. reflexivity.
  - vm_compute. reflexivity.
Defined.



(** *** Orders *)

Abbreviation item_loop order :=
  (fun it : OrderItem =>
     _ ← insert_item order (product_id it) (unit_price it) (quantity it); mret tt).










(** X18. The document that [export_json] writes for a well-formed store
    stands on its own: ids are not repeated among its customers nor among
    its products, every order names a customer of the document and carries
    the plain sum of unit price times quantity as its total, and every line
    has a quantity of 1 or more, the rounded product as its line total, and
    names a product of the document under that product's title. *)
Theorem export_json_self_contained (s : store) (d : document) :
  store_ok s -> export_json s = Ok d ->
  NoDup (map cj_id (doc_customers d)) /\
  NoDup (map pj_id (doc_products d)) /\
  forall o, In o (doc_orders d) ->
    (exists cj, In cj (doc_customers d) /\ cj_id cj = Some (oj_customer_id o)) /\
    oj_total o =
      IFNULL (SUM (map (fun it => ij_unit_price it * inject_Z (ij_quantity it))%Q
                     (oj_items o))) 0%Q /\
    forall it, In it (oj_items o) ->
      1 <= ij_quantity it /\
      ij_line_total it = round2 (ij_unit_price it * inject_Z (ij_quantity it)) /\
      exists pj, In pj (doc_products d) /\ pj_id pj = Some (ij_product_id it) /\
                 pj_title pj = ij_product_title it.
Proof.
  intros H E.
  rewrite (export_json_exported s (ok_customers s H) (ok_valid_customers s H)
             (ok_products s H) (ok_valid_products s H)) in E.
  injection E as <-.
  destruct (exported_doc_ok s H) as [_ Hc _ Hp Ho].
  split; [exact Hc|]. split; [exact Hp|].
  intros o Hin. rewrite List.Forall_forall in Ho.
  destruct (Ho o Hin) as ([cj Hcj] & Ht & Hits).
  apply find_customer_json_Some in Hcj.
  split; [eauto|]. split; [exact Ht|].
  intros it Hit. rewrite List.Forall_forall in Hits.
  destruct (Hits it Hit) as (Hq & Hl & pj & Hpj & Htitle).
  apply find_product_json_Some in Hpj as [Hpj1 Hpj2].
  split; [exact Hq|]. split; [exact Hl|]. eauto.
Qed.

Lemma export_json_self_contained_witness :
  NoDup (map cj_id (doc_customers (exported sample_store))) /\
  NoDup (map pj_id (doc_products (exported sample_store))) /\
  forall o, In o (doc_orders (exported sample_store)) ->
    (exists cj, In cj (doc_customers (exported sample_store)) /\
                cj_id cj = Some (oj_customer_id o)) /\
    oj_total o =
      IFNULL (SUM (map (fun it => ij_unit_price it * inject_Z (ij_quantity it))%Q
                     (oj_items o))) 0%Q /\
    forall it, In it (oj_items o) ->
      1 <= ij_quantity it /\
      ij_line_total it = round2 (ij_unit_price it * inject_Z (ij_quantity it)) /\
      exists pj, In pj (doc_products (exported sample_store)) /\
                 pj_id pj = Some (ij_product_id it) /\
                 pj_title pj = ij_product_title it.
Proof.
  apply (export_json_self_contained sample_store (exported sample_store)).
  - exact sample_store_ok.
  - vm_compute. reflexivity.
Defined.

End Tables.

(* ===================================================================== *)
(** ** analysis.py: the three reports *)
(* ===================================================================== *)

Module Reports.
Import Models Db Analysis StoreFacts GraphFacts RoundTrip.

(** *** The relationship graph *)

(** X19. The graph that is drawn is a simple undirected graph on its
    nodes: an edge joins two different customers that are both nodes, it is
    stored with the same weight under both ends, and its weight is 1 or
    more. *)
Theorem customer_graph_undirected (s : store) (G : Graph) (a b : string) (w : nat) :
  customer_relationship_graph s = Ok (Some G) ->
  edge_weight G a b = Some w ->
  a <> b /\ edge_weight G b a = Some w /\ (1 <= w)%nat /\ a ∈ dom G /\ b ∈ dom G.
Proof.
  intros HG Hw. apply customer_graph_inv in HG. subst G.
  set (cp := cust_products_of (order_to_customer (list_orders s)) (items_df s)) in *.
  set (l := cust_list_of (order_to_customer (list_orders s)) (items_df s)) in *.
  assert (ND : NoDup l) by apply NoDup_group_keys.
  destruct (build_graph_spec cp l ND) as [Hdom Hedge].
  rewrite Hedge in Hw. rewrite Hedge, !Hdom.
  destruct (bool_decide (a ≠ b ∧ a ∈ l ∧ b ∈ l)) eqn:E; [|discriminate].
  apply bool_decide_eq_true in E as (Hab & Ha & Hb).
  rewrite bool_decide_eq_true_2 by auto.
  unfold pair_weight in *. rewrite (shared_weight_comm (cp !!! b)).
  split; [exact Hab|]. split; [exact Hw|].
  split; [|split; apply elem_of_list_to_set; assumption].
  unfold shared_weight in Hw.
  destruct (decide (cp !!! a ∩ cp !!! b = ∅)) as [|Hne]; [discriminate|].
  injection Hw as <-.
  assert (size (cp !!! a ∩ cp !!! b) ≠ 0%nat); [|lia].
  apply size_non_empty_iff. intros Heq. apply Hne. apply leibniz_equiv. exact Heq.
Qed.

Lemma customer_graph_undirected_witness :
  "A" <> "B" /\ edge_weight abc_graph "B" "A" = Some 1%nat /\ (1 <= 1)%nat /\
  "A" ∈ dom abc_graph /\ "B" ∈ dom abc_graph.
Proof.
  apply (customer_graph_undirected abc_store abc_graph "A" "B" 1).
  - vm_compute. reflexivity.
  - vm_compute. reflexivity.
Defined.

(** *** The ranking of customers *)

Lemma StronglySorted_app_inv {A : Type} (R : A -> A -> Prop) (l1 l2 : list A) :
  StronglySorted R (l1 ++ l2) -> forall a b, In a l1 -> In b l2 -> R a b.
Proof.
  induction l1 as [|x l1 IH]; cbn; intros H a b Ha Hb; [destruct Ha|].
  apply StronglySorted_inv in H as [H F]. destruct Ha as [<-|Ha].
  - rewrite List.Forall_forall in F. apply F, in_or_app. right. exact Hb.
  - exact (IH H a b Ha Hb).
Qed.

Lemma In_group_keys (names : list string) (n : string) :
  In n (group_keys names) <-> In n names.
Proof. rewrite <- !list_elem_of_In. apply elem_of_group_keys. Qed.

Lemma listed_name_count (s : store) (n : string) :
  In n (map ov_customer_name (list_orders s)) <-> (1 <= length (listed_under s n))%nat.
Proof.
  unfold listed_under. split.
  - intros H. apply in_map_iff in H as (ov & <- & Hov).
    assert (Hin : In ov (List.filter (fun ov0 => String.eqb (ov_customer_name ov0)
                                        (ov_customer_name ov)) (list_orders s))).
    { apply List.filter_In. split; [exact Hov|apply String.eqb_refl]. }
    destruct (List.filter _ _); [destruct Hin|cbn; lia].
  - intros H.
    destruct (List.filter _ _) as [|ov l] eqn:E; [cbn in H; lia|].
    assert (Hin : In ov (ov :: l)) by (left; reflexivity).
    rewrite <- E in Hin. apply List.filter_In in Hin as [Hov Hn].
    apply String.eqb_eq in Hn. apply in_map_iff. eauto.
Qed.

Section TopCustomers.
Variable sort_values : list (string * nat) -> list (string * nat).
Hypothesis sort_values_perm : forall l, Permutation (sort_values l) l.
Hypothesis sort_values_sorted :
  forall l, StronglySorted (fun a b => (b.2 <= a.2)%nat) (sort_values l).

(** X20. The ranking that is plotted has at most five bars; the height of
    a bar is the number of listed orders under that customer name, never
    0; and a name with a listed order is left out only when the five bars
    are taken, by names with at least as many orders. *)
Theorem top_customers_ranking (s : store) (ranking : list (string * nat)) :
  top_customers_by_orders sort_values s = Ok (Some ranking) ->
  (length ranking <= 5)%nat /\
  (forall n k, In (n, k) ranking ->
     (1 <= k)%nat /\ k = length (listed_under s n)) /\
  (forall n, In n (map ov_customer_name (list_orders s)) ->
     ~ In n (map fst ranking) ->
     length ranking = 5%nat /\
     forall n' k, In (n', k) ranking -> (length (listed_under s n) <= k)%nat).
Proof.
  intros H. apply top_customers_inv in H.
  set (C := count_by_name (list_orders s)) in *.
  set (L := sort_values C) in *.
  assert (HL : L = ranking ++ drop 5 L) by (rewrite H; symmetry; apply take_drop).
  assert (Hcount : forall n k, In (n, k) L -> k = length (listed_under s n)).
  { intros n k Hin. apply (Permutation_in _ (sort_values_perm C)) in Hin.
    apply (proj2 (count_by_name_spec (list_orders s))) in Hin. exact Hin. }
  assert (Hname : forall n k, In (n, k) L -> In n (map ov_customer_name (list_orders s))).
  { intros n k Hin. apply (Permutation_in _ (sort_values_perm C)) in Hin.
    unfold C, count_by_name in Hin. apply in_map_iff in Hin as (n' & [= -> _] & Hn).
    exact (proj1 (In_group_keys _ _) Hn). }
  assert (Hsub : forall e, In e ranking -> In e L).
  { intros e He. rewrite HL. apply in_or_app. left. exact He. }
  split; [|split].
  - rewrite H, length_take. lia.
  - intros n k Hin. apply Hsub in Hin. split; [|apply Hcount, Hin].
    rewrite (Hcount n k Hin). apply listed_name_count. exact (Hname n k Hin).
  - intros n Hn Hout.
    assert (HinL : In (n, length (listed_under s n)) L).
    { apply (Permutation_in _ (Permutation_sym (sort_values_perm C))).
      unfold C, count_by_name. apply in_map_iff. exists n. split; [reflexivity|].
      exact (proj2 (In_group_keys _ _) Hn). }
    assert (Hdrop : In (n, length (listed_under s n)) (drop 5 L)).
    { rewrite HL in HinL. apply in_app_or in HinL as [Hin|Hin]; [|exact Hin].
      exfalso. apply Hout. apply in_map_iff. exists (n, length (listed_under s n)). auto. }
    split.
    + rewrite H, length_take.
      assert (length (drop 5 L) <> 0)%nat.
      { destruct (drop 5 L); [destruct Hdrop|discriminate]. }
      rewrite length_drop in *. lia.
    + intros n' k Hin.
      pose proof (sort_values_sorted C) as S. fold L in S. rewrite HL in S.
      exact (StronglySorted_app_inv _ _ _ S _ _ Hin Hdrop).
Qed.
End TopCustomers.

Lemma insert_by_desc_sorted {A : Type} (k : A -> Z) (x : A) (l : list A) :
  StronglySorted (fun a b => k b <= k a) l ->
  StronglySorted (fun a b => k b <= k a) (insert_by Z.geb k x l).
Proof.
  induction 1 as [|y l S IH F]; cbn [insert_by]; [repeat constructor|].
  rewrite List.Forall_forall in F.
  destruct (k x >=? k y) eqn:E.
  - rewrite Z.geb_le in E. constructor; [constructor; [exact S|apply List.Forall_forall, F]|].
    apply List.Forall_forall. intros z [<-|Hz]; [exact E|]. specialize (F z Hz). lia.
  - assert (k x < k y) by (rewrite Z.geb_leb in E; apply Z.leb_gt in E; exact E).
    constructor; [exact IH|]. apply List.Forall_forall. intros z Hz.
    apply (Permutation_in _ (insert_by_perm Z.geb k x l)) in Hz as [<-|Hz]; [lia|].
    apply F, Hz.
Qed.

Lemma order_by_desc_nonincreasing {A : Type} (k : A -> Z) (l : list A) :
  StronglySorted (fun a b => k b <= k a) (order_by k true l).
Proof.
  unfold order_by. induction l as [|x l IH]; cbn [fold_right]; [constructor|].
  apply insert_by_desc_sorted, IH.
Qed.

Lemma top_customers_ranking_witness :
  (length [("Sam", 3%nat)] <= 5)%nat /\
  (forall n k, In (n, k) [("Sam", 3%nat)] ->
     (1 <= k)%nat /\ k = length (listed_under twins_store n)) /\
  (forall n, In n (map ov_customer_name (list_orders twins_store)) ->
     ~ In n (map fst [("Sam", 3%nat)]) ->
     length [("Sam", 3%nat)] = 5%nat /\
     forall n' k, In (n', k) [("Sam", 3%nat)] ->
       (length (listed_under twins_store n) <= k)%nat).
Proof.
  apply (top_customers_ranking by_count_desc).
  - intros l. apply order_by_perm.
  - intros l. unfold by_count_desc.
    eapply OrdersTab.StronglySorted_weaken;
      [|apply (order_by_desc_nonincreasing (fun e : string * nat => Z.of_nat e.2))].
    cbn. intros a b H. lia.
  - vm_compute. reflexivity.
Defined.

(** *** Orders by date *)

Section Dynamics.
(** [date_of] stands for the [date] column that [build_dataframes] adds:
    the calendar day of [created_at], days being numbered in calendar
    order. *)
Variable date_of : isotext -> Z.

(** [orders_df.groupby("date")["id"].count().sort_index()] *)
Definition count_by_date (orders : list order_view) : list (Z * nat) :=
  map (fun d => (d, length (List.filter (fun o => date_of (ov_created_at o) =? d) orders)))
    (order_by (fun d : Z => d) false
       (remove_dups (map (fun o => date_of (ov_created_at o)) orders))).

(** [orders_dynamics_by_date]: the series that is plotted, or [None] for
    the "no data" picture. *)
Definition orders_dynamics_by_date (s : store) : result (option (list (Z * nat))) :=
  '(_, _, orders_df, _) ← build_dataframes s;
  match orders_df with
  | [] => Ok None
  | _ => Ok (Some (count_by_date orders_df))
  end.

Lemma insert_by_asc_sorted {A : Type} (k : A -> Z) (x : A) (l : list A) :
  StronglySorted (fun a b => k a <= k b) l ->
  StronglySorted (fun a b => k a <= k b) (insert_by Z.leb k x l).
Proof.
  induction 1 as [|y l S IH F]; cbn [insert_by]; [repeat constructor|].
  rewrite List.Forall_forall in F.
  destruct (k x <=? k y) eqn:E.
  - apply Z.leb_le in E. constructor; [constructor; [exact S|apply List.Forall_forall, F]|].
    apply List.Forall_forall. intros z [<-|Hz]; [exact E|]. specialize (F z Hz). lia.
  - apply Z.leb_gt in E.
    constructor; [exact IH|]. apply List.Forall_forall. intros z Hz.
    apply (Permutation_in _ (insert_by_perm Z.leb k x l)) in Hz as [<-|Hz]; [lia|].
    apply F, Hz.
Qed.

Lemma order_by_asc_nondecreasing {A : Type} (k : A -> Z) (l : list A) :
  StronglySorted (fun a b => k a <= k b) (order_by k false l).
Proof.
  unfold order_by. induction l as [|x l IH]; cbn [fold_right]; [constructor|].
  apply insert_by_asc_sorted, IH.
Qed.

Lemma sorted_NoDup_strict (l : list Z) :
  StronglySorted Z.le l -> NoDup l -> StronglySorted Z.lt l.
Proof.
  induction 1 as [|x l S IH F]; intros ND; [constructor|].
  apply NoDup_cons in ND as [Hx ND]. constructor; [apply IH, ND|].
  rewrite List.Forall_forall in *. intros y Hy. specialize (F y Hy).
  assert (x <> y); [|lia]. intros ->. apply Hx, list_elem_of_In, Hy.
Qed.

Lemma StronglySorted_map_fst {B : Type} (f : Z -> B) (l : list Z) :
  StronglySorted Z.lt l ->
  StronglySorted (fun a b : Z * B => a.1 < b.1) (map (fun d => (d, f d)) l).
Proof.
  induction 1 as [|x l S IH F]; cbn; constructor; [exact IH|].
  rewrite List.Forall_forall in *. intros e He.
  apply in_map_iff in He as (d & <- & Hd). cbn. apply F, Hd.
Qed.

Lemma one_bucket (a : Z) (keys : list Z) :
  NoDup keys -> In a keys ->
  list_sum (map (fun d => if a =? d then 1%nat else 0%nat) keys) = 1%nat.
Proof.
  induction keys as [|d keys IH]; intros ND Ha; [destruct Ha|].
  apply NoDup_cons in ND as [Hd ND]. simpl.
  destruct (Z.eqb_spec a d) as [->|Hne].
  - f_equal. clear IH Ha ND. induction keys as [|e keys IH]; [reflexivity|].
    simpl. destruct (Z.eqb_spec d e) as [->|_].
    + exfalso. apply Hd. left.
    + apply IH. intros H. apply Hd. right. exact H.
  - destruct Ha as [->|Ha]; [congruence|]. simpl. apply IH; assumption.
Qed.

Lemma list_sum_plus {A : Type} (f g : A -> nat) (l : list A) :
  list_sum (map (fun d => (f d + g d)%nat) l) =
    (list_sum (map f l) + list_sum (map g l))%nat.
Proof. induction l as [|x l IH]; simpl; [reflexivity|rewrite IH; lia]. Qed.

(** The buckets of a [groupby] hold every row once. *)
Lemma bucket_sum {A : Type} (key : A -> Z) (keys : list Z) (l : list A) :
  NoDup keys -> (forall x, In x l -> In (key x) keys) ->
  list_sum (map (fun d => length (List.filter (fun o => key o =? d) l)) keys) = length l.
Proof.
  intros ND. induction l as [|x l IH]; intros Hk.
  - clear. induction keys as [|d keys IHk]; [reflexivity|]. simpl. exact IHk.
  - assert (E : map (fun d => length (List.filter (fun o => key o =? d) (x :: l))) keys =
                map (fun d => ((if (key x =? d)%Z then 1 else 0) +
                               length (List.filter (fun o => (key o =? d)%Z) l))%nat) keys).
    { apply map_ext. intros d. cbn [List.filter]. destruct (key x =? d); reflexivity. }
    rewrite E, list_sum_plus, one_bucket, IH; [reflexivity|..].
    + intros y Hy. apply Hk. right. exact Hy.
    + exact ND.
    + apply Hk. left. reflexivity.
Qed.

(** X21. The series of orders by date has one point for every day on which
    a listed order was created, in calendar order; the value of a point is
    the number of listed orders of that day, never 0; and the values add
    up to the number of listed orders. *)
Theorem orders_dynamics_counts (s : store) (series : list (Z * nat)) :
  orders_dynamics_by_date s = Ok (Some series) ->
  StronglySorted (fun a b => a.1 < b.1) series /\
  (forall d k, In (d, k) series ->
     (1 <= k)%nat /\
     k = length (List.filter (fun o => date_of (ov_created_at o) =? d) (list_orders s))) /\
  (forall o, In o (list_orders s) -> In (date_of (ov_created_at o)) (map fst series)) /\
  list_sum (map snd series) = length (list_orders s).
Proof.
  unfold orders_dynamics_by_date, build_dataframes.
  destruct (list_customers s) as [cs|e]; [|discriminate].
  destruct (list_products s) as [ps|e]; [|discriminate]. cbn.
  intros H.
  assert (Hs : series = count_by_date (list_orders s)).
  { destruct (list_orders s); [discriminate|]. injection H as <-. reflexivity. }
  clear H. subst series. unfold count_by_date.
  set (l := list_orders s).
  set (key := fun o : order_view => date_of (ov_created_at o)).
  set (keys := order_by (fun d : Z => d) false (remove_dups (map key l))).
  assert (Pk : Permutation keys (remove_dups (map key l))) by apply order_by_perm.
  assert (ND : NoDup keys) by (rewrite Pk; apply NoDup_remove_dups).
  assert (Hin : forall d, In d keys <-> In d (map key l)).
  { intros d. rewrite <- !list_elem_of_In, Pk. apply elem_of_remove_dups. }
  split; [|split; [|split]].
  - apply StronglySorted_map_fst. apply sorted_NoDup_strict; [|exact ND].
    apply (order_by_asc_nondecreasing (fun d : Z => d)).
  - intros d k Hdk. apply in_map_iff in Hdk as (d' & [= -> <-] & Hd). split; [|reflexivity].
    apply Hin, in_map_iff in Hd as (o & Ho & Hol).
    assert (Hf : In o (List.filter (fun o0 => date_of (ov_created_at o0) =? d) l)).
    { apply List.filter_In. split; [exact Hol|]. apply Z.eqb_eq. exact Ho. }
    destruct (List.filter _ l); [destruct Hf|cbn; lia].
  - intros o Ho. rewrite map_map. cbn. rewrite map_id. apply Hin.
    exact (in_map key l o Ho).
  - rewrite map_map. cbn [snd].
    apply (bucket_sum key keys l ND). intros x Hx. apply Hin. exact (in_map key l x Hx).
Qed.
End Dynamics.

Lemma orders_dynamics_counts_witness :
  StronglySorted (fun a b => a.1 < b.1) [(20089, 1%nat); (20090, 1%nat)] /\
  (forall d k, In (d, k) [(20089, 1%nat); (20090, 1%nat)] ->
     (1 <= k)%nat /\
     k = length (List.filter (fun o => ov_created_at o / 86400 =? d)
                   (list_orders sample_store))) /\
  (forall o, In o (list_orders sample_store) ->
     In (ov_created_at o / 86400) (map fst [(20089, 1%nat); (20090, 1%nat)])) /\
  list_sum (map snd [(20089, 1%nat); (20090, 1%nat)]) = length (list_orders sample_store).
Proof.
  apply (orders_dynamics_counts (fun t => t / 86400) sample_store).
  vm_compute. reflexivity.
Defined.

End Reports.
